(** * Stable L2-norm and normalisation ([BasisLib/ops/safe.py])

    A shallow embedding of the three functions of [safe.py], [norm],
    [normalize_and_return_norm] and [normalize], together with the part
    of the NumPy array engine they call: element-wise arithmetic with
    broadcasting, [np.max], [np.sum] over an axis argument with
    [keepdims], [np.where] and [np.squeeze], and the exceptions these
    raise.

    Arrays are a dtype, a shape and the row-major list of their
    elements; a NumPy scalar is the array of shape [()] it behaves as.
    The element type and its arithmetic are an interface ([Scalar]);
    everything that concerns shapes, axes and raised exceptions is
    proved for every instance of it.  The statements about values are
    proved for the instance [R_scalar], in which elements are real
    numbers and the operations are exact: rounding, overflow,
    underflow, NaN and infinities are not part of that instance.

    The file has three parts: the definitions, the lemmas about the
    engine and about the three functions, and the theorems on the
    behaviour of [safe.py] with their concrete runs. *)

From Stdlib Require Import List ZArith Bool Arith Lia Reals Lra Permutation.
Import ListNotations.

Set Implicit Arguments.

(** ** Exceptions and the result monad *)

(** The exceptions NumPy raises on the paths of [safe.py]. *)
Inductive exception : Type :=
| AxisError          (* numpy.exceptions.AxisError: axis is out of bounds *)
| DuplicateAxis      (* ValueError: duplicate value in 'axis' *)
| ZeroSizeReduction  (* ValueError: zero-size array to reduction operation
                        maximum which has no identity *)
| SqueezeError       (* ValueError: cannot select an axis to squeeze out
                        which has size not equal to one *)
| BroadcastError.    (* ValueError: operands could not be broadcast together *)

Inductive result (A : Type) : Type :=
| Ok (a : A)
| Raise (e : exception).

Arguments Ok {A} a.
Arguments Raise {A} e.

Definition bind {A B : Type} (c : result A) (k : A -> result B) : result B :=
  match c with
  | Ok a => k a
  | Raise e => Raise e
  end.

Notation "x <- c ;; k" := (bind c (fun x => k))
  (at level 61, c at next level, right associativity).

Definition fmap {A B : Type} (f : A -> B) (c : result A) : result B :=
  x <- c ;; Ok (f x).

(** ** Scalars: the element type of the array engine *)

(** The floating dtypes of fixed width.  [np.finfo] is defined on
    each, so an array of this model always has a [tiny]. *)
Inductive float_dtype : Type := float16 | float32 | float64.

Class Scalar (S : Type) : Type := {
  s_zero : S;
  s_one : S;
  s_tiny : float_dtype -> S;      (* np.finfo(dtype).tiny *)
  s_abs : S -> S;                 (* np.abs *)
  s_sqrt : S -> S;                (* np.sqrt *)
  s_add : S -> S -> S;
  s_mul : S -> S -> S;
  s_div : S -> S -> S;
  s_maximum : S -> S -> S;        (* np.maximum *)
  s_gt : S -> S -> bool           (* > *)
}.

(** ** Arrays *)

Record ndarray (S : Type) : Type := mk_ndarray {
  dtype : float_dtype;
  shape : list nat;
  data : list S                   (* row-major (C order) *)
}.

Definition prod (s : list nat) : nat := fold_right Nat.mul 1 s.

Definition ndim {S : Type} (x : ndarray S) : nat := length (shape x).

Definition size {S : Type} (x : ndarray S) : nat := prod (shape x).

(** An array holds as many elements as its shape says. *)
Definition wf {S : Type} (x : ndarray S) : Prop :=
  length (data x) = size x.

(** The [axis] argument: [None], an integer, or a tuple of integers. *)
Inductive axis_arg : Type :=
| AxisNone
| AxisInt (k : Z)
| AxisTuple (ks : list Z).

(** ** List helpers *)

Fixpoint zip_with {A B C : Type} (f : A -> B -> C) (l : list A) (m : list B)
  : list C :=
  match l, m with
  | a :: l', b :: m' => f a b :: zip_with f l' m'
  | _, _ => []
  end.

(** [chunks n k l]: the first [k] consecutive blocks of [n] elements of [l]. *)
Fixpoint chunks {A : Type} (n k : nat) (l : list A) : list (list A) :=
  match k with
  | O => []
  | S k' => firstn n l :: chunks n k' (skipn n l)
  end.

Fixpoint set_flag (k : nat) (flags : list bool) : list bool :=
  match flags, k with
  | [], _ => []
  | _ :: fs, O => true :: fs
  | f :: fs, S k' => f :: set_flag k' fs
  end.

(** ** Axis handling of the array engine *)

(** [check_and_adjust_axis]: an axis must lie in [-ndim, ndim); a
    negative one counts from the last axis. *)
Definition check_and_adjust_axis (axis : Z) (nd : nat) : result nat :=
  if ((- Z.of_nat nd <=? axis) && (axis <? Z.of_nat nd))%Z
  then Ok (Z.to_nat (if (axis <? 0)%Z then axis + Z.of_nat nd else axis))
  else Raise AxisError.

Fixpoint adjust_axes (ks : list Z) (nd : nat) : result (list nat) :=
  match ks with
  | [] => Ok []
  | k :: rest =>
      k' <- check_and_adjust_axis k nd ;;
      rest' <- adjust_axes rest nd ;;
      Ok (k' :: rest')
  end.

Fixpoint mark_axes (axes : list nat) (flags : list bool)
  : result (list bool) :=
  match axes with
  | [] => Ok flags
  | k :: rest =>
      if nth k flags false then Raise DuplicateAxis
      else mark_axes rest (set_flag k flags)
  end.

(** A 0-d array accepts the integer axes 0 and -1 (kept by NumPy for
    backwards compatibility); they select no axis. *)
Definition legacy_scalar_axis (k : Z) (nd : nat) : bool :=
  (nd =? 0) && ((k =? 0)%Z || (k =? -1)%Z).

(** The axes a ufunc reduction ([np.sum]) runs over, as one flag per
    dimension.  A tuple is range-checked entry by entry first, and
    checked for duplicates afterwards. *)
Definition reduction_axes (axis : axis_arg) (nd : nat) : result (list bool) :=
  match axis with
  | AxisNone => Ok (repeat true nd)
  | AxisInt k =>
      if legacy_scalar_axis k nd then Ok (repeat false nd)
      else k' <- check_and_adjust_axis k nd ;;
           Ok (set_flag k' (repeat false nd))
  | AxisTuple ks =>
      axes <- adjust_axes ks nd ;;
      mark_axes axes (repeat false nd)
  end.

(** The axes [np.squeeze] removes when [axis] is not [None]; here each
    entry of a tuple is range-checked and then checked against the
    entries before it. *)
Fixpoint convert_axes (ks : list Z) (nd : nat) (flags : list bool)
  : result (list bool) :=
  match ks with
  | [] => Ok flags
  | k :: rest =>
      k' <- check_and_adjust_axis k nd ;;
      if nth k' flags false then Raise DuplicateAxis
      else convert_axes rest nd (set_flag k' flags)
  end.

Definition squeeze_axes (axis : axis_arg) (nd : nat) : result (list bool) :=
  match axis with
  | AxisNone => Ok (repeat false nd)
  | AxisInt k =>
      if legacy_scalar_axis k nd then Ok (repeat false nd)
      else k' <- check_and_adjust_axis k nd ;;
           Ok (set_flag k' (repeat false nd))
  | AxisTuple ks => convert_axes ks nd (repeat false nd)
  end.

(** ** Shapes *)

(** The shape a reduction leaves: a reduced dimension becomes 1 with
    [keepdims] and disappears without it. *)
Fixpoint reduced_shape (keepdims : bool) (s : list nat) (flags : list bool)
  : list nat :=
  match s, flags with
  | d :: s', f :: fs =>
      if f then
        if keepdims then 1 :: reduced_shape keepdims s' fs
        else reduced_shape keepdims s' fs
      else d :: reduced_shape keepdims s' fs
  | _, _ => s
  end.

(** Broadcasting of two shapes, aligned at the last dimension; the
    arguments and the result are reversed shapes. *)
Fixpoint broadcast_rev (r1 r2 : list nat) : result (list nat) :=
  match r1, r2 with
  | [], r => Ok r
  | r, [] => Ok r
  | d1 :: t1, d2 :: t2 =>
      d <- (if d1 =? d2 then Ok d1
            else if d1 =? 1 then Ok d2
            else if d2 =? 1 then Ok d1
            else Raise BroadcastError) ;;
      t <- broadcast_rev t1 t2 ;;
      Ok (d :: t)
  end.

Definition broadcast_shapes (s1 s2 : list nat) : result (list nat) :=
  fmap (@rev nat) (broadcast_rev (rev s1) (rev s2)).

(** A shape padded on the left with ones up to rank [n]. *)
Definition pad_shape (n : nat) (s : list nat) : list nat :=
  repeat 1 (n - length s) ++ s.

(** The elements of an array of shape [from] seen at shape [to] (of the
    same rank): a dimension of size 1 is repeated. *)
Fixpoint broadcast_data {A : Type} (from to : list nat) (l : list A)
  : list A :=
  match from, to with
  | df :: rf, dt :: rt =>
      let parts := map (broadcast_data rf rt) (chunks (prod rf) df l) in
      if df =? dt then concat parts
      else concat (repeat (hd [] parts) dt)
  | _, _ => l
  end.

Definition broadcast_to {A : Type} (s : list nat) (to : list nat)
  (l : list A) : list A :=
  broadcast_data (pad_shape (length to) s) to l.

(** ** The array engine *)

Section ArrayEngine.

Context {S : Type} {SC : Scalar S}.

Definition map_array (f : S -> S) (x : ndarray S) : ndarray S :=
  mk_ndarray (dtype x) (shape x) (map f (data x)).

(** [np.abs(x)] and [np.sqrt(x)]. *)
Definition np_abs (x : ndarray S) : ndarray S := map_array s_abs x.

Definition np_sqrt (x : ndarray S) : ndarray S := map_array s_sqrt x.

(** [np.max(x)] over all elements; the maximum has no identity, so an
    array without elements raises. *)
Definition np_max (x : ndarray S) : result S :=
  match data x with
  | [] => Raise ZeroSizeReduction
  | v :: vs => Ok (fold_left s_maximum vs v)
  end.

(** [x / a] and [a * x] for a scalar [a]. *)
Definition divide_scalar (x : ndarray S) (a : S) : ndarray S :=
  map_array (fun v => s_div v a) x.

Definition scalar_multiply (a : S) (x : ndarray S) : ndarray S :=
  map_array (fun v => s_mul a v) x.

(** An element-wise binary operation on two arrays, with broadcasting. *)
Definition binary_op (f : S -> S -> S) (x y : ndarray S)
  : result (ndarray S) :=
  s <- broadcast_shapes (shape x) (shape y) ;;
  Ok (mk_ndarray (dtype x) s
        (zip_with f (broadcast_to (shape x) s (data x))
                    (broadcast_to (shape y) s (data y)))).

Definition np_multiply : ndarray S -> ndarray S -> result (ndarray S) :=
  binary_op s_mul.

Definition np_divide : ndarray S -> ndarray S -> result (ndarray S) :=
  binary_op s_div.

(** [x > c] for a scalar [c]: the mask, in the order of [data x]. *)
Definition greater_scalar (x : ndarray S) (c : S) : list bool :=
  map (fun v => s_gt v c) (data x).

(** [np.where(cond, x, c)] for a mask of the shape of [x] and a scalar [c]. *)
Definition np_where (cond : list bool) (x : ndarray S) (c : S) : ndarray S :=
  mk_ndarray (dtype x) (shape x)
    (zip_with (fun (b : bool) v => if b then v else c) cond (data x)).

(** The sums of the elements of an array of shape [s] over the flagged
    dimensions, in row-major order of the dimensions that remain.  The
    order in which the terms of one sum are added is the engine's; here
    they are added from the last block to the first, starting from 0. *)
Fixpoint sum_axes (s : list nat) (flags : list bool) (l : list S) : list S :=
  match s, flags with
  | d :: s', f :: fs =>
      let parts := map (sum_axes s' fs) (chunks (prod s') d l) in
      if f then
        fold_right (zip_with s_add)
          (repeat s_zero (prod (reduced_shape false s' fs))) parts
      else concat parts
  | _, _ => l
  end.

(** [np.sum(x, axis=axis, keepdims=keepdims)].  A result of rank 0,
    which NumPy hands out as a scalar, is the array of shape [()]. *)
Definition np_sum (x : ndarray S) (axis : axis_arg) (keepdims : bool)
  : result (ndarray S) :=
  flags <- reduction_axes axis (ndim x) ;;
  Ok (mk_ndarray (dtype x) (reduced_shape keepdims (shape x) flags)
        (sum_axes (shape x) flags (data x))).

Fixpoint squeezable (s : list nat) (flags : list bool) : bool :=
  match s, flags with
  | d :: s', f :: fs => (if f then d =? 1 else true) && squeezable s' fs
  | _, _ => true
  end.

(** [np.squeeze(x, axis=axis)]: without an axis every dimension of size
    1 goes; with one, the selected dimensions go and must have size 1. *)
Definition np_squeeze (x : ndarray S) (axis : axis_arg)
  : result (ndarray S) :=
  match axis with
  | AxisNone =>
      Ok (mk_ndarray (dtype x)
            (filter (fun d => negb (d =? 1)) (shape x)) (data x))
  | _ =>
      flags <- squeeze_axes axis (ndim x) ;;
      if squeezable (shape x) flags
      then Ok (mk_ndarray (dtype x) (reduced_shape false (shape x) flags)
                 (data x))
      else Raise SqueezeError
  end.

(** ** [safe.py] *)

(** [[
    a = np.maximum(np.max(np.abs(x)), np.finfo(x.dtype).tiny)
    b = x / a
    return a * np.sqrt(np.sum(b * b, axis=axis, keepdims=keepdims))
    ]] *)
Definition norm (x : ndarray S) (axis : axis_arg) (keepdims : bool)
  : result (ndarray S) :=
  m <- np_max (np_abs x) ;;
  let a := s_maximum m (s_tiny (dtype x)) in
  let b := divide_scalar x a in
  bb <- np_multiply b b ;;
  s <- np_sum bb axis keepdims ;;
  Ok (scalar_multiply a (np_sqrt s)).

(** [[
    n = norm(x, axis=axis, keepdims=True)
    y = x / np.where(n * n > np.finfo(x.dtype).tiny, n, 1)
    if not keepdims:
        n = np.squeeze(n, axis=axis)
    return y, n
    ]] *)
Definition normalize_and_return_norm (x : ndarray S) (axis : axis_arg)
  (keepdims : bool) : result (ndarray S * ndarray S) :=
  n <- norm x axis true ;;
  nn <- np_multiply n n ;;
  y <- np_divide x
         (np_where (greater_scalar nn (s_tiny (dtype x))) n s_one) ;;
  n' <- (if negb keepdims then np_squeeze n axis else Ok n) ;;
  Ok (y, n').

(** [[
    y, _ = normalize_and_return_norm(x, axis=axis, keepdims=True)
    return y
    ]] *)
Definition normalize (x : ndarray S) (axis : axis_arg)
  : result (ndarray S) :=
  p <- normalize_and_return_norm x axis true ;;
  Ok (fst p).


(** ** Notions used in the statements *)

(** The scale [a] of [norm], given the maximum [m] of [|x|]. *)
Definition norm_scale (x : ndarray S) (m : S) : S :=
  s_maximum m (s_tiny (dtype x)).

(** The elements of the result of [norm], given the maximum [m] of
    [|x|] and the flags of the reduced dimensions. *)
Definition norm_data (x : ndarray S) (m : S) (flags : list bool) : list S :=
  let a := norm_scale x m in
  let b := broadcast_to (shape x) (shape x)
             (map (fun v => s_div v a) (data x)) in
  map (fun v => s_mul a v)
    (map s_sqrt (sum_axes (shape x) flags (zip_with s_mul b b))).

(** The norm each element of [x] is measured by: the [keepdims] norm
    [n] broadcast to the shape of [x]. *)
Definition slice_norms (x n : ndarray S) : list S :=
  broadcast_to (shape n) (shape x) (data n).

(** The divisor [np.where(n * n > tiny, n, 1)] of one element. *)
Definition guarded_divisor (t : float_dtype) (v : S) : S :=
  if s_gt (s_mul v v) (s_tiny t) then v else s_one.

(** The array [x / np.where(n * n > tiny, n, 1)] of
    [normalize_and_return_norm], for the [keepdims] norm [n]. *)
Definition normalized (x n : ndarray S) : ndarray S :=
  mk_ndarray (dtype x) (shape x)
    (zip_with s_div
       (broadcast_to (shape x) (shape x) (data x))
       (broadcast_to (shape n) (shape x)
          (zip_with (fun (b : bool) v => if b then v else s_one)
             (map (fun v => s_gt v (s_tiny (dtype x)))
                (zip_with s_mul
                   (broadcast_to (shape n) (shape n) (data n))
                   (broadcast_to (shape n) (shape n) (data n))))
             (data n)))).



(** ** Predicates on the arguments *)

(** An integer axis in range for the rank. *)
Definition axis_in_range (nd : nat) (k : Z) : bool :=
  ((- Z.of_nat nd <=? k) && (k <? Z.of_nat nd))%Z.

(** The dimension an in-range axis names. *)
Definition axis_index (nd : nat) (k : Z) : nat :=
  Z.to_nat (if (k <? 0)%Z then k + Z.of_nat nd else k).

(** A valid axis argument for rank [nd]: [None], an integer in range,
    or a tuple of integers in range that name distinct dimensions. *)
Definition valid_axis (nd : nat) (axis : axis_arg) : Prop :=
  match axis with
  | AxisNone => True
  | AxisInt k => axis_in_range nd k = true
  | AxisTuple ks =>
      forallb (axis_in_range nd) ks = true /\
      NoDup (map (axis_index nd) ks)
  end.



End ArrayEngine.

(** ** Real semantics *)

(** [np.finfo(dtype).tiny], the smallest positive normal number. *)
Definition tiny_R (t : float_dtype) : R :=
  match t with
  | float16 => / 2 ^ 14
  | float32 => / 2 ^ 126
  | float64 => / 2 ^ 1022
  end.

Definition Rgtb (a b : R) : bool := if Rlt_dec b a then true else false.

#[export] Instance R_scalar : Scalar R := {|
  s_zero := 0%R;
  s_one := 1%R;
  s_tiny := tiny_R;
  s_abs := Rabs;
  s_sqrt := sqrt;
  s_add := Rplus;
  s_mul := Rmult;
  s_div := Rdiv;
  s_maximum := Rmax;
  s_gt := Rgtb
|}.

(** The sum of a list of reals. *)
Definition sum_list (l : list R) : R := fold_right Rplus 0%R l.

(** The Euclidean norm of a row, and the row as [normalize] returns it. *)
Definition euclid (row : list R) : R :=
  sqrt (sum_list (map (fun v => (v * v)%R) row)).

Definition normalize_row (t : float_dtype) (row : list R) : list R :=
  map (fun v => (v / guarded_divisor t (euclid row))%R) row.

(** ** Inputs used in the examples *)

(** [np.zeros((0,))]: one dimension, no element. *)
Definition empty_1d : ndarray R := mk_ndarray float64 [0] [].

(** [np.zeros((0, 3))]. *)
Definition empty_0x3 : ndarray R := mk_ndarray float64 [0; 3] [].

(** [np.array([[3.0, 4.0]])], of shape (1, 2). *)
Definition row_3_4 : ndarray R := mk_ndarray float64 [1; 2] [3%R; 4%R].

(** [np.array([3.0, 4.0])]. *)
Definition vec_3_4 : ndarray R := mk_ndarray float64 [2] [3%R; 4%R].

(** [np.array(2.0)], a 0-d array. *)
Definition scalar_2 : ndarray R := mk_ndarray float64 [] [2%R].

(** [np.array([1/256, 0.0], dtype=np.float16)]: its norm, 1/256, has a
    square below the [tiny] of float16, which is 1/16384. *)
Definition small_vec : ndarray R :=
  mk_ndarray float16 [2] [(/ 256)%R; 0%R].

(** [np.array([[3.0, 4.0], [0.0, 0.0]])]. *)
Definition mat_3_4_0_0 : ndarray R :=
  mk_ndarray float64 [2; 2] [3%R; 4%R; 0%R; 0%R].

(** [np.zeros((2, 2))]. *)
Definition zeros_2x2 : ndarray R :=
  mk_ndarray float64 [2; 2] [0%R; 0%R; 0%R; 0%R].

(** ** Notions used in the further properties *)

(** The tuple [(0, 1, ..., nd - 1)] of all axes. *)
Definition all_axes (nd : nat) : list Z := map Z.of_nat (seq 0 nd).

(** * Proofs *)

Unset Implicit Arguments.

(** ** The result monad *)

Lemma bind_Ok (A B : Type) (c : result A) (k : A -> result B) (b : B) :
  (x <- c ;; k x) = Ok b -> exists a, c = Ok a /\ k a = Ok b.
Proof.
  destruct c as [a | e]; simpl; intros Hb; [eauto | discriminate].
Qed.

Ltac inv_bind H :=
  let a := fresh "a" in
  let Ha := fresh "Ha" in
  apply bind_Ok in H; destruct H as (a & Ha & H).

(** ** Lists *)

Lemma zip_with_diag (A C : Type) (f : A -> A -> C) (l : list A) :
  zip_with f l l = map (fun v => f v v) l.
Proof.
  induction l as [| a l IH]; simpl; [reflexivity | now rewrite IH].
Qed.

Lemma zip_with_length (A B C : Type) (f : A -> B -> C) l m :
  length (zip_with f l m) = Nat.min (length l) (length m).
Proof.
  revert m; induction l as [| a l IH]; intros [| b m]; simpl; auto.
Qed.

Lemma zip_with_map_l (A A' B C : Type) (f : A' -> B -> C) (g : A -> A') l m :
  zip_with f (map g l) m = zip_with (fun a b => f (g a) b) l m.
Proof.
  revert m; induction l as [| a l IH]; intros [| b m]; simpl; auto.
  now rewrite IH.
Qed.

Lemma zip_with_map_r (A B B' C : Type) (f : A -> B' -> C) (g : B -> B') l m :
  zip_with f l (map g m) = zip_with (fun a b => f a (g b)) l m.
Proof.
  revert m; induction l as [| a l IH]; intros [| b m]; simpl; auto.
  now rewrite IH.
Qed.

Lemma zip_with_nth (A B C : Type) (f : A -> B -> C) l m i da db dc :
  i < length l -> i < length m ->
  nth i (zip_with f l m) dc = f (nth i l da) (nth i m db).
Proof.
  revert m i; induction l as [| a l IH]; intros [| b m] [| i]; simpl;
    intros Hl Hm; try lia; auto.
  apply IH; lia.
Qed.

Lemma chunks_length (A : Type) n k (l : list A) :
  length (chunks n k l) = k.
Proof.
  revert l; induction k as [| k IH]; intros l; simpl; auto.
Qed.

Lemma chunks_map (A B : Type) (g : A -> B) n k (l : list A) :
  chunks n k (map g l) = map (map g) (chunks n k l).
Proof.
  revert l; induction k as [| k IH]; intros l; simpl; auto.
  now rewrite firstn_map, skipn_map, IH.
Qed.

Lemma chunks_In_length (A : Type) n k (l c : list A) :
  length l = k * n -> In c (chunks n k l) -> length c = n.
Proof.
  revert l; induction k as [| k IH]; intros l Hl; simpl; [tauto |].
  intros [<- | Hin].
  - rewrite length_firstn. simpl in Hl. lia.
  - apply (IH (skipn n l)); [| exact Hin].
    rewrite length_skipn. simpl in Hl. lia.
Qed.

Lemma concat_chunks (A : Type) n k (l : list A) :
  length l = k * n -> concat (chunks n k l) = l.
Proof.
  revert l; induction k as [| k IH]; intros l Hl; simpl.
  - simpl in Hl. now destruct l.
  - rewrite IH.
    + apply firstn_skipn.
    + rewrite length_skipn. simpl in Hl. lia.
Qed.

Lemma Forall_firstn_skipn (A : Type) (P : A -> Prop) n (l : list A) :
  Forall P l -> Forall P (firstn n l) /\ Forall P (skipn n l).
Proof.
  revert l; induction n as [| n IH]; intros l Hl; simpl.
  - split; [constructor | exact Hl].
  - destruct Hl as [| a l Ha Hl]; [split; constructor |].
    destruct (IH l Hl) as [H1 H2]. split; [now constructor | exact H2].
Qed.

Lemma chunks_Forall (A : Type) (P : A -> Prop) n k (l : list A) :
  Forall P l -> Forall (Forall P) (chunks n k l).
Proof.
  revert l; induction k as [| k IH]; intros l Hl; simpl; constructor.
  - now apply Forall_firstn_skipn.
  - now apply IH, Forall_firstn_skipn.
Qed.

Lemma set_flag_length k flags : length (set_flag k flags) = length flags.
Proof.
  revert k; induction flags as [| f fs IH]; intros [| k]; simpl; auto.
Qed.

(** ** Axes *)

Lemma check_and_adjust_axis_in_range k nd :
  axis_in_range nd k = true ->
  check_and_adjust_axis k nd = Ok (axis_index nd k).
Proof.
  unfold axis_in_range, check_and_adjust_axis, axis_index.
  now intros ->.
Qed.


Lemma axis_index_lt k nd : axis_in_range nd k = true -> axis_index nd k < nd.
Proof.
  unfold axis_in_range, axis_index. intros H.
  apply andb_true_iff in H as [H1 H2].
  apply Z.leb_le in H1. apply Z.ltb_lt in H2.
  destruct (Z.ltb_spec k 0); lia.
Qed.

Lemma mark_axes_length axes flags fl :
  mark_axes axes flags = Ok fl -> length fl = length flags.
Proof.
  revert flags; induction axes as [| k axes IH]; intros flags; simpl.
  - now intros [= <-].
  - destruct (nth k flags false); [discriminate |].
    intros H. apply IH in H. now rewrite set_flag_length in H.
Qed.

Lemma reduction_axes_length axis nd flags :
  reduction_axes axis nd = Ok flags -> length flags = nd.
Proof.
  destruct axis as [| k | ks]; simpl.
  - intros [= <-]. apply repeat_length.
  - destruct (legacy_scalar_axis k nd).
    + intros [= <-]. apply repeat_length.
    + intros H. inv_bind H. injection H as <-.
      now rewrite set_flag_length, repeat_length.
  - intros H. inv_bind H. apply mark_axes_length in H.
    now rewrite repeat_length in H.
Qed.

Lemma convert_axes_of_mark ks nd axes flags fl :
  adjust_axes ks nd = Ok axes ->
  mark_axes axes flags = Ok fl ->
  convert_axes ks nd flags = Ok fl.
Proof.
  revert axes flags; induction ks as [| k ks IH]; intros axes flags; simpl.
  - now intros [= <-].
  - intros H. inv_bind H. inv_bind H. injection H as <-.
    rewrite Ha. simpl.
    destruct (nth a flags false); [discriminate |].
    now apply IH.
Qed.

(** Whatever axes the reduction accepted, [np.squeeze] accepts too, and
    they are the same dimensions. *)
Lemma squeeze_axes_of_reduction axis nd flags :
  axis <> AxisNone ->
  reduction_axes axis nd = Ok flags ->
  squeeze_axes axis nd = Ok flags.
Proof.
  destruct axis as [| k | ks]; simpl; [congruence | auto |].
  intros _ H. inv_bind H. eapply convert_axes_of_mark; eauto.
Qed.

Lemma nth_set_flag_other k j flags :
  j <> k -> nth j (set_flag k flags) false = nth j flags false.
Proof.
  revert k j; induction flags as [| f fs IH]; intros [| k] [| j] Hjk; simpl;
    auto; try lia.
Qed.

Lemma mark_axes_NoDup axes flags :
  NoDup axes ->
  (forall k, In k axes -> nth k flags false = false) ->
  exists fl, mark_axes axes flags = Ok fl.
Proof.
  revert flags; induction axes as [| k axes IH]; intros flags Hnd Hfl; simpl.
  - eauto.
  - rewrite (Hfl k) by now left.
    inversion Hnd as [| ? ? Hnotin Hnd']; subst.
    apply IH; [exact Hnd' |].
    intros j Hj. rewrite nth_set_flag_other.
    + apply Hfl. now right.
    + intros ->. contradiction.
Qed.

Lemma adjust_axes_in_range ks nd :
  forallb (axis_in_range nd) ks = true ->
  adjust_axes ks nd = Ok (map (axis_index nd) ks).
Proof.
  induction ks as [| k ks IH]; simpl; [reflexivity |].
  intros H. apply andb_true_iff in H as [Hk Hks].
  rewrite (check_and_adjust_axis_in_range _ _ Hk). simpl.
  now rewrite (IH Hks).
Qed.


Lemma nth_repeat_false k n : nth k (repeat false n) false = false.
Proof.
  revert k; induction n as [| n IH]; intros [| k]; simpl; auto.
Qed.

(** A valid axis argument is accepted by the reduction. *)
Lemma reduction_axes_valid axis nd :
  valid_axis nd axis -> exists flags, reduction_axes axis nd = Ok flags.
Proof.
  destruct axis as [| k | ks]; simpl.
  - eauto.
  - intros Hk. destruct (legacy_scalar_axis k nd); [eauto |].
    rewrite (check_and_adjust_axis_in_range _ _ Hk). simpl. eauto.
  - intros [Hr Hnd]. rewrite (adjust_axes_in_range _ _ Hr). simpl.
    apply mark_axes_NoDup; [exact Hnd |].
    intros k _. apply nth_repeat_false.
Qed.


(** ** Shapes *)

Lemma reduced_shape_keep_length s flags :
  length (reduced_shape true s flags) = length s.
Proof.
  revert flags; induction s as [| d s IH]; intros [| [] fs]; simpl; auto.
Qed.

Lemma squeezable_reduced s flags :
  squeezable (reduced_shape true s flags) flags = true.
Proof.
  revert flags; induction s as [| d s IH]; intros [| [] fs]; simpl; auto.
Qed.

Lemma reduced_shape_drop_keep s flags :
  reduced_shape false (reduced_shape true s flags) flags
  = reduced_shape false s flags.
Proof.
  revert flags; induction s as [| d s IH]; intros [| [] fs]; simpl; auto.
  now rewrite IH.
Qed.

Lemma reduced_shape_all_drop s :
  reduced_shape false s (repeat true (length s)) = [].
Proof.
  induction s as [| d s IH]; simpl; auto.
Qed.

Lemma reduced_shape_all_keep s :
  reduced_shape true s (repeat true (length s)) = repeat 1 (length s).
Proof.
  induction s as [| d s IH]; simpl; auto. now rewrite IH.
Qed.


Lemma filter_ones_repeat n :
  filter (fun d => negb (d =? 1)) (repeat 1 n) = [].
Proof.
  induction n as [| n IH]; simpl; auto.
Qed.

Lemma prod_reduced_shape kd s flags :
  prod (reduced_shape kd s flags) = prod (reduced_shape false s flags).
Proof.
  destruct kd; [| reflexivity].
  revert flags; induction s as [| d s IH]; intros [| [] fs]; simpl; auto.
  fold (prod (reduced_shape true s fs)). rewrite IH. lia.
Qed.

Lemma reduced_shape_app kd s1 s2 f1 f2 :
  length s1 = length f1 ->
  reduced_shape kd (s1 ++ s2) (f1 ++ f2)
  = reduced_shape kd s1 f1 ++ reduced_shape kd s2 f2.
Proof.
  revert f1; induction s1 as [| d s1 IH]; intros [| b f1]; simpl;
    try discriminate; auto.
  intros [= Hl]. rewrite (IH _ Hl). now destruct b, kd.
Qed.

Lemma reduced_shape_keep_rev s flags :
  length flags = length s ->
  rev (reduced_shape true s flags) = reduced_shape true (rev s) (rev flags).
Proof.
  revert flags; induction s as [| d s IH]; intros [| b fs]; simpl;
    try discriminate; auto.
  intros [= Hl]. rewrite reduced_shape_app by now rewrite !length_rev.
  rewrite <- (IH _ Hl). now destruct b.
Qed.

Lemma broadcast_rev_refl r : broadcast_rev r r = Ok r.
Proof.
  induction r as [| d r IH]; simpl; auto.
  now rewrite Nat.eqb_refl, IH.
Qed.

Lemma broadcast_rev_reduced r flags :
  broadcast_rev r (reduced_shape true r flags) = Ok r.
Proof.
  revert flags; induction r as [| d r IH]; intros [| b fs]; simpl; auto.
  - now rewrite Nat.eqb_refl, broadcast_rev_refl.
  - destruct b; simpl.
    + destruct (Nat.eqb_spec d 1) as [-> | Hd]; simpl; now rewrite IH.
    + now rewrite Nat.eqb_refl, IH.
Qed.

Lemma broadcast_shapes_refl s : broadcast_shapes s s = Ok s.
Proof.
  unfold broadcast_shapes, fmap.
  rewrite broadcast_rev_refl. simpl. now rewrite rev_involutive.
Qed.

(** A [keepdims] result broadcasts against the array it was reduced
    from, to the shape of that array. *)
Lemma broadcast_shapes_reduced s flags :
  length flags = length s ->
  broadcast_shapes s (reduced_shape true s flags) = Ok s.
Proof.
  intros Hl. unfold broadcast_shapes, fmap.
  rewrite (reduced_shape_keep_rev _ _ Hl), broadcast_rev_reduced. simpl.
  now rewrite rev_involutive.
Qed.

(** ** Structure of the three functions, for every scalar type *)

Section Structure.

Context {S : Type} {SC : Scalar S}.

Lemma np_max_abs_nonempty (x : ndarray S) :
  wf x -> size x <> 0 -> exists m, np_max (np_abs x) = Ok m.
Proof.
  unfold wf, np_max, np_abs, map_array. simpl. intros Hwf Hsz.
  destruct (data x) as [| v vs]; simpl in *; [congruence | eauto].
Qed.

Lemma np_max_abs_empty (x : ndarray S) :
  wf x -> size x = 0 -> np_max (np_abs x) = Raise ZeroSizeReduction.
Proof.
  unfold wf, np_max, np_abs, map_array. simpl. intros Hwf Hsz.
  destruct (data x) as [| v vs]; simpl in *; [reflexivity | lia].
Qed.

(** [norm] raises what [np.max] or the reduction raises, and otherwise
    returns the reduced shape with the elements [norm_data]. *)
Lemma norm_eq (x : ndarray S) axis kd :
  norm x axis kd =
  (m <- np_max (np_abs x) ;;
   flags <- reduction_axes axis (ndim x) ;;
   Ok (mk_ndarray (dtype x) (reduced_shape kd (shape x) flags)
         (norm_data x m flags))).
Proof.
  unfold norm. destruct (np_max (np_abs x)) as [m | e]; simpl; [| reflexivity].
  unfold np_multiply, binary_op. simpl.
  rewrite broadcast_shapes_refl. simpl.
  unfold np_sum, ndim. simpl.
  destruct (reduction_axes axis (length (shape x))); reflexivity.
Qed.

(** Squeezing the [keepdims] result of a reduction gives the result
    without [keepdims]. *)
Lemma np_squeeze_reduced t (s : list nat) axis flags (l : list S) :
  reduction_axes axis (length s) = Ok flags ->
  np_squeeze (mk_ndarray t (reduced_shape true s flags) l) axis
  = Ok (mk_ndarray t (reduced_shape false s flags) l).
Proof.
  intros Hfl. destruct axis as [| k | ks].
  - simpl in Hfl. injection Hfl as <-. unfold np_squeeze. simpl.
    now rewrite reduced_shape_all_keep, filter_ones_repeat,
      reduced_shape_all_drop.
  - unfold np_squeeze, ndim. simpl shape. simpl data. simpl dtype.
    rewrite reduced_shape_keep_length.
    rewrite (squeeze_axes_of_reduction (AxisInt k) _ flags)
      by (auto; discriminate).
    simpl. now rewrite squeezable_reduced, reduced_shape_drop_keep.
  - unfold np_squeeze, ndim. simpl shape. simpl data. simpl dtype.
    rewrite reduced_shape_keep_length.
    rewrite (squeeze_axes_of_reduction (AxisTuple ks) _ flags)
      by (auto; discriminate).
    simpl. now rewrite squeezable_reduced, reduced_shape_drop_keep.
Qed.

(** [normalize_and_return_norm] returns [normalized x n] for the
    [keepdims] norm [n], and the norm [norm x axis keepdims]; it raises
    exactly when [norm] does. *)
Lemma normalize_and_return_norm_eq (x : ndarray S) axis kd :
  normalize_and_return_norm x axis kd =
  (n <- norm x axis true ;;
   n' <- norm x axis kd ;;
   Ok (normalized x n, n')).
Proof.
  unfold normalize_and_return_norm. rewrite !norm_eq.
  destruct (np_max (np_abs x)) as [m | e]; simpl; [| reflexivity].
  destruct (reduction_axes axis (ndim x)) as [flags | e] eqn:Hfl; simpl;
    [| reflexivity].
  unfold np_multiply, np_divide, binary_op. simpl.
  rewrite broadcast_shapes_refl. simpl.
  rewrite broadcast_shapes_reduced
    by (apply reduction_axes_length in Hfl; exact Hfl).
  simpl. destruct kd; simpl; [reflexivity |].
  rewrite np_squeeze_reduced by exact Hfl. reflexivity.
Qed.

Lemma norm_returns (x : ndarray S) axis kd :
  wf x -> size x <> 0 -> valid_axis (ndim x) axis ->
  exists r, norm x axis kd = Ok r.
Proof.
  intros Hwf Hsz Hax. rewrite norm_eq.
  destruct (np_max_abs_nonempty x Hwf Hsz) as [m ->].
  destruct (reduction_axes_valid _ _ Hax) as [flags ->]. simpl. eauto.
Qed.


(** On an array without elements the three functions raise what
    [np.max] raises, whatever the axis. *)
Lemma empty_array_raises (x : ndarray S) axis kd :
  wf x -> size x = 0 ->
  norm x axis kd = Raise ZeroSizeReduction /\
  normalize_and_return_norm x axis kd = Raise ZeroSizeReduction /\
  normalize x axis = Raise ZeroSizeReduction.
Proof.
  intros Hwf Hsz.
  assert (Hn : forall kd', norm x axis kd' = Raise ZeroSizeReduction).
  { intros kd'. now rewrite norm_eq, (np_max_abs_empty x Hwf Hsz). }
  repeat split.
  - apply Hn.
  - now rewrite normalize_and_return_norm_eq, Hn.
  - unfold normalize. now rewrite normalize_and_return_norm_eq, Hn.
Qed.






Lemma in_range_not_legacy k nd :
  axis_in_range nd k = true -> legacy_scalar_axis k nd = false.
Proof.
  intros H. apply axis_index_lt in H. unfold legacy_scalar_axis.
  destruct (Nat.eqb_spec nd 0); [lia | reflexivity].
Qed.


End Structure.

(** ** Broadcasting and reduction of the elements *)

Lemma concat_length_uniform (A : Type) (N : nat) (ls : list (list A)) :
  Forall (fun c => length c = N) ls -> length (concat ls) = length ls * N.
Proof.
  induction 1 as [| c ls Hc _ IH]; simpl; [reflexivity |].
  rewrite length_app, IH, Hc. reflexivity.
Qed.

Lemma broadcast_data_map (A B : Type) (g : A -> B) from to (l : list A) :
  broadcast_data from to (map g l) = map g (broadcast_data from to l).
Proof.
  revert to l; induction from as [| df rf IH]; intros [| dt rt] l; simpl; auto.
  rewrite chunks_map, map_map.
  rewrite (map_ext _ (fun c => map g (broadcast_data rf rt c)))
    by (intros c; apply IH).
  rewrite <- (map_map (broadcast_data rf rt) (map g)).
  set (parts := map (broadcast_data rf rt) (chunks (prod rf) df l)).
  destruct (df =? dt).
  - now rewrite concat_map.
  - rewrite concat_map, map_repeat. now destruct parts.
Qed.

Lemma broadcast_data_refl (A : Type) s (l : list A) :
  length l = prod s -> broadcast_data s s l = l.
Proof.
  revert l; induction s as [| d s IH]; intros l Hl; simpl; auto.
  rewrite Nat.eqb_refl.
  rewrite (map_ext_in _ (fun c => c)).
  - rewrite map_id. apply concat_chunks. exact Hl.
  - intros c Hc. apply IH. eapply chunks_In_length; eauto.
Qed.

Lemma pad_shape_same n s : length s = n -> pad_shape n s = s.
Proof.
  intros <-. unfold pad_shape. now rewrite Nat.sub_diag.
Qed.

Lemma broadcast_to_refl (A : Type) s (l : list A) :
  length l = prod s -> broadcast_to s s l = l.
Proof.
  intros Hl. unfold broadcast_to.
  rewrite pad_shape_same by reflexivity. now apply broadcast_data_refl.
Qed.

Lemma broadcast_to_map (A B : Type) (g : A -> B) s to (l : list A) :
  broadcast_to s to (map g l) = map g (broadcast_to s to l).
Proof.
  apply broadcast_data_map.
Qed.

Lemma broadcast_data_cons (A : Type) df rf dt rt (l : list A) :
  broadcast_data (df :: rf) (dt :: rt) l =
  if df =? dt
  then concat (map (broadcast_data rf rt) (chunks (prod rf) df l))
  else concat (repeat
                 (hd [] (map (broadcast_data rf rt) (chunks (prod rf) df l)))
                 dt).
Proof. reflexivity. Qed.

(** A [keepdims] result broadcast to the shape it was reduced from has
    one element per element of that shape. *)
Lemma broadcast_data_reduced_length (A : Type) s flags (l : list A) :
  length l = prod (reduced_shape true s flags) ->
  length (broadcast_data (reduced_shape true s flags) s l) = prod s.
Proof.
  revert flags l; induction s as [| d s IH]; intros flags l Hl.
  - now destruct flags.
  - destruct flags as [| b fs].
    + rewrite broadcast_data_refl; exact Hl.
    + simpl reduced_shape in *.
      assert (Hparts : forall k (m : list A),
                 length m = k * prod (reduced_shape true s fs) ->
                 Forall (fun c => length c = prod s)
                   (map (broadcast_data (reduced_shape true s fs) s)
                      (chunks (prod (reduced_shape true s fs)) k m))).
      { intros k m Hm. apply Forall_forall. intros c Hc.
        apply in_map_iff in Hc as (c0 & <- & Hc0).
        apply IH. eapply chunks_In_length; eauto. }
      change (prod (d :: s)) with (d * prod s).
      destruct b; rewrite broadcast_data_cons.
      * change (prod (1 :: reduced_shape true s fs))
          with (1 * prod (reduced_shape true s fs)) in Hl.
        specialize (Hparts 1 l Hl).
        destruct (Nat.eqb_spec 1 d) as [<- | Hd].
        -- rewrite (concat_length_uniform _ _ _ Hparts).
           now rewrite length_map, chunks_length.
        -- rewrite (concat_length_uniform _ (prod s)).
           ++ now rewrite repeat_length.
           ++ apply Forall_forall. intros c' Hc'.
              apply repeat_spec in Hc'. subst c'.
              simpl. now inversion Hparts.
      * change (prod (d :: reduced_shape true s fs))
          with (d * prod (reduced_shape true s fs)) in Hl.
        specialize (Hparts d l Hl).
        rewrite Nat.eqb_refl.
        rewrite (concat_length_uniform _ _ _ Hparts).
        now rewrite length_map, chunks_length.
Qed.

Lemma slice_norms_length (S : Type) (x n : ndarray S) flags :
  shape n = reduced_shape true (shape x) flags -> wf n ->
  length (slice_norms x n) = size x.
Proof.
  intros Hs Hn. unfold slice_norms, broadcast_to, size.
  rewrite pad_shape_same by (rewrite Hs; apply reduced_shape_keep_length).
  rewrite Hs. apply broadcast_data_reduced_length.
  unfold wf, size in Hn. now rewrite Hs in Hn.
Qed.

Section Reduction.

Context {S : Type} {SC : Scalar S}.

Lemma fold_zip_length (init : list S) (parts : list (list S)) :
  Forall (fun c => length c = length init) parts ->
  length (fold_right (zip_with s_add) init parts) = length init.
Proof.
  induction 1 as [| c cs Hc _ IH]; simpl; [reflexivity |].
  rewrite zip_with_length, IH, Hc. apply Nat.min_id.
Qed.

Lemma sum_axes_length s flags (l : list S) :
  length l = prod s ->
  length (sum_axes s flags l) = prod (reduced_shape false s flags).
Proof.
  revert flags l; induction s as [| d s IH]; intros flags l Hl.
  - now destruct flags.
  - destruct flags as [| b fs]; [exact Hl |].
    assert (Hparts : Forall
              (fun c => length c = prod (reduced_shape false s fs))
              (map (sum_axes s fs) (chunks (prod s) d l))).
    { apply Forall_forall. intros c Hc.
      apply in_map_iff in Hc as (c0 & <- & Hc0).
      apply IH. eapply chunks_In_length; eauto. }
    simpl. destruct b.
    + rewrite fold_zip_length; rewrite repeat_length; [reflexivity |].
      exact Hparts.
    + rewrite (concat_length_uniform _ _ _ Hparts).
      now rewrite length_map, chunks_length.
Qed.

(** The sums inherit every property of the elements that holds of 0
    and is closed under addition. *)
Lemma sum_axes_Forall (P : S -> Prop) s flags (l : list S) :
  P s_zero -> (forall u v, P u -> P v -> P (s_add u v)) ->
  Forall P l -> Forall P (sum_axes s flags l).
Proof.
  intros H0 Hadd. revert flags l.
  induction s as [| d s IH]; intros flags l Hl; [now destruct flags |].
  destruct flags as [| b fs]; [exact Hl |].
  assert (Hparts : Forall (Forall P)
            (map (sum_axes s fs) (chunks (prod s) d l))).
  { apply Forall_forall. intros c Hc.
    apply in_map_iff in Hc as (c0 & <- & Hc0). apply IH.
    pose proof (chunks_Forall _ _ (prod s) d _ Hl) as Hch.
    rewrite Forall_forall in Hch. now apply Hch. }
  simpl. destruct b.
  - induction Hparts as [| c cs Hc _ IHc]; simpl.
    + apply Forall_forall. intros v Hv. apply repeat_spec in Hv. now subst.
    + revert IHc Hc. generalize (fold_right (zip_with s_add)
        (repeat s_zero (prod (reduced_shape false s fs))) cs).
      intros acc Hacc Hc. revert acc Hacc.
      induction Hc as [| u c Hu _ IHu]; intros [| v acc] Hacc; simpl;
        constructor.
      * inversion Hacc; subst. now apply Hadd.
      * inversion Hacc; subst. now apply IHu.
  - apply Forall_concat. exact Hparts.
Qed.

(** A map that commutes with addition and fixes 0 commutes with the
    sums. *)
Lemma sum_axes_map (h : S -> S) s flags (l : list S) :
  h s_zero = s_zero ->
  (forall u v, h (s_add u v) = s_add (h u) (h v)) ->
  sum_axes s flags (map h l) = map h (sum_axes s flags l).
Proof.
  intros H0 Hadd. revert flags l.
  induction s as [| d s IH]; intros flags l; [now destruct flags |].
  destruct flags as [| b fs]; [reflexivity |].
  simpl. rewrite chunks_map, map_map.
  rewrite (map_ext _ (fun c => map h (sum_axes s fs c)))
    by (intros c; apply IH).
  rewrite <- (map_map (sum_axes s fs) (map h)).
  generalize (map (sum_axes s fs) (chunks (prod s) d l)). intros parts.
  destruct b.
  - induction parts as [| c cs IHc]; simpl.
    + rewrite map_repeat. now rewrite H0.
    + rewrite IHc.
      generalize (fold_right (zip_with s_add)
        (repeat s_zero (prod (reduced_shape false s fs))) cs).
      intros acc. revert acc.
      induction c as [| u c IHu]; intros [| v acc]; simpl; auto.
      now rewrite Hadd, IHu.
  - now rewrite concat_map.
Qed.

End Reduction.

(** ** Real semantics of the values *)

Section RealSemantics.

Local Open Scope R_scope.

Lemma tiny_R_pos t : 0 < tiny_R t.
Proof.
  destruct t; unfold tiny_R; apply Rinv_0_lt_compat, pow_lt; lra.
Qed.

Lemma norm_scale_pos (x : ndarray R) m : 0 < norm_scale x m.
Proof.
  unfold norm_scale. cbn [s_maximum s_tiny R_scalar].
  pose proof (tiny_R_pos (dtype x)).
  pose proof (Rmax_r m (tiny_R (dtype x))). lra.
Qed.

Lemma Rgtb_false a b : a <= b -> Rgtb a b = false.
Proof.
  intros H. unfold Rgtb. destruct (Rlt_dec b a); [lra | reflexivity].
Qed.

Lemma Rgtb_true a b : b < a -> Rgtb a b = true.
Proof.
  intros H. unfold Rgtb. destruct (Rlt_dec b a); [reflexivity | lra].
Qed.

Lemma guarded_divisor_near_zero t v :
  v * v <= tiny_R t -> guarded_divisor t v = 1.
Proof.
  intros H. unfold guarded_divisor. cbn [s_gt s_mul s_tiny s_one R_scalar].
  now rewrite Rgtb_false.
Qed.

Lemma guarded_divisor_far t v :
  tiny_R t < v * v -> guarded_divisor t v = v.
Proof.
  intros H. unfold guarded_divisor. cbn [s_gt s_mul s_tiny s_one R_scalar].
  now rewrite Rgtb_true.
Qed.

Lemma rescale_sqrt a t : 0 < a -> 0 <= t -> a * sqrt (/ (a * a) * t) = sqrt t.
Proof.
  intros Ha Ht.
  replace (/ (a * a) * t) with (t / (a * a)) by (field; lra).
  rewrite sqrt_div_alt by nra.
  rewrite sqrt_square by lra. field. lra.
Qed.

(** The sums of squares over any axes are not negative. *)
Lemma sum_axes_squares_nonneg s flags (l : list R) :
  Forall (fun t => 0 <= t) (sum_axes s flags (map (fun v => v * v) l)).
Proof.
  apply sum_axes_Forall.
  - cbn. lra.
  - cbn. intros; lra.
  - apply Forall_forall. intros t Ht.
    apply in_map_iff in Ht as (v & <- & _). nra.
Qed.

(** Over the reals the rescaling cancels: the elements [norm] returns
    are the square roots of the sums of squares. *)
Lemma norm_data_R (x : ndarray R) m flags :
  wf x ->
  norm_data x m flags
  = map sqrt (sum_axes (shape x) flags (map (fun v => v * v) (data x))).
Proof.
  intros Hwf. unfold norm_data.
  pose proof (norm_scale_pos x m) as Ha.
  set (a := norm_scale x m) in *.
  cbn [s_mul s_div s_sqrt R_scalar].
  rewrite broadcast_to_refl by (rewrite length_map; exact Hwf).
  rewrite zip_with_diag, !map_map.
  rewrite (map_ext (fun v => v / a * (v / a))
             (fun v => / (a * a) * (v * v)))
    by (intros v; field; lra).
  rewrite <- (map_map (fun v => v * v) (Rmult (/ (a * a)))).
  rewrite (sum_axes_map (Rmult (/ (a * a))))
    by (cbn; intros; lra).
  rewrite map_map.
  apply map_ext_in. intros t Ht.
  apply rescale_sqrt; [exact Ha |].
  pose proof (sum_axes_squares_nonneg (shape x) flags (data x)) as Hnn.
  rewrite Forall_forall in Hnn. now apply Hnn.
Qed.


(** Every element the rescaling squares lies in [[-1, 1]]: its square
    is at most 1. *)
Lemma rescaled_square_le_1 (x : ndarray R) m :
  np_max (np_abs x) = Ok m ->
  Forall (fun b => b * b <= 1)
    (data (divide_scalar x (norm_scale x m))).
Proof.
  intros Hm. pose proof (norm_scale_pos x m) as Ha.
  assert (Hle : Forall (fun v => Rabs v <= norm_scale x m) (data x)).
  { unfold norm_scale. cbn [s_maximum s_tiny R_scalar].
    unfold np_max, np_abs, map_array in Hm. cbn in Hm.
    destruct (data x) as [| v vs]; [discriminate |].
    injection Hm as <-. cbn [map].
    assert (Hfold : forall l acc,
               acc <= fold_left Rmax (map Rabs l) acc /\
               Forall (fun v => Rabs v <= fold_left Rmax (map Rabs l) acc) l).
    { induction l as [| u l IH]; intros acc; simpl.
      - split; [lra | constructor].
      - destruct (IH (Rmax acc (Rabs u))) as [H1 H2].
        pose proof (Rmax_l acc (Rabs u)). pose proof (Rmax_r acc (Rabs u)).
        split; [lra |]. constructor; [lra | exact H2]. }
    destruct (Hfold vs (Rabs v)) as [H1 H2].
    set (mx := fold_left Rmax (map Rabs vs) (Rabs v)) in *.
    pose proof (Rmax_l mx (tiny_R (dtype x))) as Hmx.
    constructor; [lra |].
    eapply Forall_impl; [| exact H2]. cbn. intros u Hu. lra. }
  unfold divide_scalar, map_array. cbn [data s_div R_scalar].
  set (a := norm_scale x m) in *.
  apply Forall_forall. intros b Hb.
  apply in_map_iff in Hb as (v & <- & Hv).
  rewrite Forall_forall in Hle. specialize (Hle v Hv).
  replace (v / a * (v / a)) with ((v * v) * / (a * a)) by (field; lra).
  assert (Hsq : v * v <= a * a).
  { unfold Rabs in Hle. destruct (Rcase_abs v); nra. }
  assert (Hinv : 0 < / (a * a)) by (apply Rinv_0_lt_compat; nra).
  replace 1 with ((a * a) * / (a * a)) by (field; lra).
  apply Rmult_le_compat_r; lra.
Qed.

End RealSemantics.

(** ** The normalized array, element by element *)

Lemma broadcast_data_Forall (A : Type) (P : A -> Prop) from to (l : list A) :
  Forall P l -> Forall P (broadcast_data from to l).
Proof.
  revert to l; induction from as [| df rf IH]; intros [| dt rt] l Hl;
    try exact Hl.
  rewrite broadcast_data_cons.
  assert (Hparts : Forall (Forall P)
            (map (broadcast_data rf rt) (chunks (prod rf) df l))).
  { apply Forall_forall. intros c Hc.
    apply in_map_iff in Hc as (c0 & <- & Hc0). apply IH.
    pose proof (chunks_Forall _ _ (prod rf) df _ Hl) as Hch.
    rewrite Forall_forall in Hch. now apply Hch. }
  destruct (df =? dt).
  - now apply Forall_concat.
  - apply Forall_concat, Forall_forall. intros c Hc.
    apply repeat_spec in Hc. subst c.
    destruct Hparts; [constructor | assumption].
Qed.

Section Normalized.

Context {S : Type} {SC : Scalar S}.

Lemma norm_data_length (x : ndarray S) m flags :
  wf x ->
  length (norm_data x m flags) = prod (reduced_shape false (shape x) flags).
Proof.
  intros Hwf. unfold norm_data. rewrite !length_map.
  apply sum_axes_length.
  rewrite broadcast_to_refl by (rewrite length_map; exact Hwf).
  rewrite zip_with_length, length_map, Nat.min_id. exact Hwf.
Qed.

(** What [norm] returns: dtype, shape and elements; the result is a
    well-formed array. *)
Lemma norm_Ok_inv (x : ndarray S) axis kd r :
  wf x -> norm x axis kd = Ok r ->
  exists m flags,
    np_max (np_abs x) = Ok m /\
    reduction_axes axis (ndim x) = Ok flags /\
    r = mk_ndarray (dtype x) (reduced_shape kd (shape x) flags)
          (norm_data x m flags) /\
    wf r.
Proof.
  intros Hwf. rewrite norm_eq. intros H.
  inv_bind H. inv_bind H. injection H as <-.
  exists a, a0. repeat split; auto.
  unfold wf, size. simpl.
  rewrite norm_data_length by exact Hwf.
  symmetry. apply prod_reduced_shape.
Qed.

(** Each element of [x] is divided by the guarded divisor of the norm
    of its slice. *)
Lemma normalized_data (x n : ndarray S) flags :
  wf x -> wf n -> shape n = reduced_shape true (shape x) flags ->
  data (normalized x n)
  = zip_with (fun v nv => s_div v (guarded_divisor (dtype x) nv))
      (data x) (slice_norms x n).
Proof.
  intros Hx Hn Hs. unfold normalized, slice_norms. simpl.
  rewrite (broadcast_to_refl _ (shape x)) by exact Hx.
  rewrite (broadcast_to_refl _ (shape n)) by exact Hn.
  rewrite zip_with_diag, map_map, zip_with_map_l, zip_with_diag.
  rewrite broadcast_to_map, zip_with_map_r. reflexivity.
Qed.

End Normalized.

Section RealNormalized.

Local Open Scope R_scope.

Lemma norm_data_nonneg (x : ndarray R) m flags :
  Forall (fun v => 0 <= v) (norm_data x m flags).
Proof.
  unfold norm_data. cbn [s_mul s_sqrt R_scalar].
  pose proof (norm_scale_pos x m) as Ha.
  apply Forall_forall. intros v Hv.
  apply in_map_iff in Hv as (u & <- & Hu).
  apply in_map_iff in Hu as (t & <- & _).
  apply Rmult_le_pos; [lra | apply sqrt_pos].
Qed.



Lemma below_sqrt_tiny t v :
  0 <= v -> v < sqrt (tiny_R t) -> v * v <= tiny_R t.
Proof.
  intros Hv Hlt. pose proof (tiny_R_pos t) as Ht.
  rewrite <- (sqrt_sqrt (tiny_R t)) by lra. nra.
Qed.

(** An element whose slice has a norm with [n * n <= tiny] is returned
    as it is. *)
Lemma normalized_pass_through (x n : ndarray R) flags i :
  wf x -> wf n -> shape n = reduced_shape true (shape x) flags ->
  (i < size x)%nat ->
  nth i (slice_norms x n) 0 * nth i (slice_norms x n) 0
    <= tiny_R (dtype x) ->
  nth i (data (normalized x n)) 0 = nth i (data x) 0.
Proof.
  intros Hx Hn Hs Hi Hv.
  rewrite (normalized_data x n flags Hx Hn Hs).
  rewrite (zip_with_nth _ _ _ _ _ _ i 0 0 0).
  - rewrite (guarded_divisor_near_zero _ _ Hv). cbn. field.
  - now rewrite Hx.
  - now rewrite (slice_norms_length _ x n flags Hs Hn).
Qed.

End RealNormalized.

(** ** The engine on small arrays *)

Section EngineExamples.

Context {S : Type} {SC : Scalar S}.

Variables a b c d e f : S.

(** [x = [[a, b, c], [d, e, f]]]: [np.sum(x, axis=0)] adds the rows,
    [np.sum(x, axis=1)] adds within each row, and [axis=-1] is
    [axis=1]. *)
Lemma np_sum_2x3_axis0 :
  np_sum (mk_ndarray float32 [2; 3] [a; b; c; d; e; f]) (AxisInt 0) false
  = Ok (mk_ndarray float32 [3]
          [s_add a (s_add d s_zero); s_add b (s_add e s_zero);
           s_add c (s_add f s_zero)]).
Proof. reflexivity. Qed.

Lemma np_sum_2x3_axis1 :
  np_sum (mk_ndarray float32 [2; 3] [a; b; c; d; e; f]) (AxisInt 1) true
  = Ok (mk_ndarray float32 [2; 1]
          [s_add a (s_add b (s_add c s_zero));
           s_add d (s_add e (s_add f s_zero))]).
Proof. reflexivity. Qed.

Lemma np_sum_2x3_last_axis kd :
  np_sum (mk_ndarray float32 [2; 3] [a; b; c; d; e; f]) (AxisInt (-1)) kd
  = np_sum (mk_ndarray float32 [2; 3] [a; b; c; d; e; f]) (AxisInt 1) kd.
Proof. reflexivity. Qed.

(** A tuple of axes, in any order, and the refused arguments. *)
Lemma np_sum_2x3_tuple :
  np_sum (mk_ndarray float32 [2; 3] [a; b; c; d; e; f])
    (AxisTuple [1%Z; 0%Z]) false
  = np_sum (mk_ndarray float32 [2; 3] [a; b; c; d; e; f]) AxisNone false.
Proof. reflexivity. Qed.

Lemma np_sum_2x3_refused :
  np_sum (mk_ndarray float32 [2; 3] [a; b; c; d; e; f]) (AxisInt 2) false
  = Raise AxisError /\
  np_sum (mk_ndarray float32 [2; 3] [a; b; c; d; e; f]) (AxisInt (-3)) false
  = Raise AxisError /\
  np_sum (mk_ndarray float32 [2; 3] [a; b; c; d; e; f])
    (AxisTuple [0%Z; (-2)%Z]) false
  = Raise DuplicateAxis /\
  np_sum (mk_ndarray float32 [2; 3] [a; b; c; d; e; f])
    (AxisTuple [0%Z; 0%Z; 2%Z]) false
  = Raise AxisError.
Proof. repeat split. Qed.

(** Broadcasting: a column against a matrix, a row against a matrix,
    and two shapes that do not fit. *)
Lemma np_divide_column :
  np_divide (mk_ndarray float32 [2; 3] [a; b; c; d; e; f])
    (mk_ndarray float32 [2; 1] [a; d])
  = Ok (mk_ndarray float32 [2; 3]
          [s_div a a; s_div b a; s_div c a;
           s_div d d; s_div e d; s_div f d]).
Proof. reflexivity. Qed.

Lemma np_multiply_row :
  np_multiply (mk_ndarray float32 [2; 3] [a; b; c; d; e; f])
    (mk_ndarray float32 [3] [a; b; c])
  = Ok (mk_ndarray float32 [2; 3]
          [s_mul a a; s_mul b b; s_mul c c;
           s_mul d a; s_mul e b; s_mul f c]).
Proof. reflexivity. Qed.

Lemma np_multiply_misfit :
  np_multiply (mk_ndarray float32 [2; 3] [a; b; c; d; e; f])
    (mk_ndarray float32 [2] [a; b])
  = Raise BroadcastError.
Proof. reflexivity. Qed.

(** [np.squeeze] with and without an axis. *)
Lemma np_squeeze_1x3x1 :
  np_squeeze (mk_ndarray float32 [1; 3; 1] [a; b; c]) AxisNone
  = Ok (mk_ndarray float32 [3] [a; b; c]) /\
  np_squeeze (mk_ndarray float32 [1; 3; 1] [a; b; c]) (AxisInt (-1))
  = Ok (mk_ndarray float32 [1; 3] [a; b; c]) /\
  np_squeeze (mk_ndarray float32 [1; 3; 1] [a; b; c]) (AxisInt 1)
  = Raise SqueezeError.
Proof. repeat split. Qed.

End EngineExamples.

(** ** The reduction over all axes is the Euclidean norm *)

Section Euclidean.

Local Open Scope R_scope.

Lemma sum_list_app l m : sum_list (l ++ m) = sum_list l + sum_list m.
Proof.
  unfold sum_list. induction l as [| v l IH]; simpl; [lra | rewrite IH; lra].
Qed.

Lemma fold_zip_singletons (cs : list (list R)) :
  fold_right (zip_with Rplus) [0] (map (fun c => [sum_list c]) cs)
  = [sum_list (concat cs)].
Proof.
  induction cs as [| c cs IH]; simpl; [reflexivity |].
  now rewrite IH, sum_list_app.
Qed.

(** Summing over every axis adds up all the elements. *)
Lemma sum_axes_all s (l : list R) :
  length l = prod s ->
  sum_axes s (repeat true (length s)) l = [sum_list l].
Proof.
  revert l; induction s as [| d s IH]; intros l Hl.
  - destruct l as [| v [| w l]]; try discriminate.
    simpl. f_equal. unfold sum_list. simpl. lra.
  - cbn [length repeat sum_axes].
    rewrite reduced_shape_all_drop.
    rewrite (map_ext_in _ (fun c => [sum_list c])).
    + cbn [prod fold_right repeat s_zero s_add R_scalar].
      rewrite fold_zip_singletons, concat_chunks; [reflexivity | exact Hl].
    + intros c Hc. apply IH. eapply chunks_In_length; eauto.
Qed.

(** [norm(x)] without an axis is the square root of the sum of the
    squares of all elements. *)
Lemma norm_all_axes (x : ndarray R) :
  wf x -> size x <> 0%nat ->
  norm x AxisNone false
  = Ok (mk_ndarray (dtype x) []
          [sqrt (sum_list (map (fun v => v * v) (data x)))]).
Proof.
  intros Hwf Hsz. rewrite norm_eq.
  destruct (np_max_abs_nonempty x Hwf Hsz) as [m ->].
  cbn [bind reduction_axes]. unfold ndim.
  rewrite reduced_shape_all_drop, norm_data_R by exact Hwf.
  rewrite sum_axes_all by (rewrite length_map; exact Hwf).
  reflexivity.
Qed.

Lemma tiny_R_lt_1 t : tiny_R t < 1.
Proof.
  assert (H : forall n, (0 < n)%nat -> / 2 ^ n < 1).
  { intros n Hn. rewrite <- Rinv_1. apply Rinv_lt_contravar.
    - rewrite Rmult_1_l. apply pow_lt. lra.
    - apply Rlt_pow_R1; [lra | exact Hn]. }
  destruct t; unfold tiny_R; apply H; lia.
Qed.

Lemma prod_repeat_1 n : prod (repeat 1%nat n) = 1%nat.
Proof.
  induction n as [| n IH]; simpl; [reflexivity |].
  fold (prod (repeat 1%nat n)). rewrite IH. reflexivity.
Qed.

Lemma concat_repeat_repeat (A : Type) (v : A) n k :
  concat (repeat (repeat v n) k) = repeat v (k * n).
Proof.
  induction k as [| k IH]; simpl; [reflexivity |].
  now rewrite IH, repeat_app.
Qed.

(** A single element broadcasts to a full array of copies. *)
Lemma broadcast_data_single (A : Type) s (v : A) :
  broadcast_data (repeat 1%nat (length s)) s [v] = repeat v (prod s).
Proof.
  induction s as [| d s IH]; [reflexivity |].
  cbn [length repeat]. rewrite broadcast_data_cons, prod_repeat_1.
  cbn [chunks firstn map hd]. rewrite IH.
  change (prod (d :: s)) with (d * prod s)%nat.
  destruct (Nat.eqb_spec 1 d) as [<- | Hd].
  - cbn [concat]. now rewrite app_nil_r, Nat.mul_1_l.
  - apply concat_repeat_repeat.
Qed.

Lemma sum_squares_nonneg (l : list R) :
  0 <= sum_list (map (fun v => v * v) l).
Proof.
  unfold sum_list. induction l as [| v l IH]; simpl; [lra | nra].
Qed.

Lemma zip_with_repeat_r (f : R -> R -> R) (l : list R) v :
  zip_with f l (repeat v (length l)) = map (fun u => f u v) l.
Proof.
  induction l as [| u l IH]; simpl; [reflexivity | now rewrite IH].
Qed.

(** Near-zero pass-through for a whole array: when the sum of the
    squares of all elements, the square of the norm, is at most [tiny],
    [normalize(x)] is [x]. *)
Lemma normalize_near_zero_all_axes (x : ndarray R) :
  wf x -> size x <> 0%nat ->
  sum_list (map (fun v => v * v) (data x)) <= tiny_R (dtype x) ->
  normalize x AxisNone = Ok x.
Proof.
  intros Hwf Hsz Hsmall.
  set (v := sqrt (sum_list (map (fun u => u * u) (data x)))).
  assert (Hn : norm x AxisNone true
               = Ok (mk_ndarray (dtype x) (repeat 1%nat (ndim x)) [v])).
  { rewrite norm_eq.
    destruct (np_max_abs_nonempty x Hwf Hsz) as [m ->].
    cbn [bind reduction_axes]. unfold ndim.
    rewrite reduced_shape_all_keep, norm_data_R by exact Hwf.
    rewrite sum_axes_all by (rewrite length_map; exact Hwf).
    reflexivity. }
  unfold normalize. rewrite normalize_and_return_norm_eq, Hn.
  cbn [bind fst]. f_equal.
  set (n := mk_ndarray (dtype x) (repeat 1%nat (ndim x)) [v]).
  change (normalized x n)
    with (mk_ndarray (dtype x) (shape x) (data (normalized x n))).
  rewrite (normalized_data x n (repeat true (ndim x))).
  - unfold slice_norms, broadcast_to, n. cbn [shape data].
    rewrite pad_shape_same by apply repeat_length.
    unfold ndim. rewrite broadcast_data_single.
    replace (prod (shape x)) with (length (data x)) by exact Hwf.
    rewrite zip_with_repeat_r.
    rewrite guarded_divisor_near_zero.
    + rewrite (map_ext _ (fun u => u)) by (intros u; cbn; field).
      rewrite map_id. now destruct x.
    + unfold v. rewrite sqrt_sqrt by apply sum_squares_nonneg. exact Hsmall.
  - exact Hwf.
  - unfold wf, size, n. cbn [shape data length]. now rewrite prod_repeat_1.
  - unfold n, ndim. cbn [shape]. now rewrite reduced_shape_all_keep.
Qed.

End Euclidean.

(** ** Along the last axis the slices are the rows *)

Lemma firstn_skipn_concat (A : Type) c k (rows : list (list A)) :
  Forall (fun r => length r = c) rows ->
  firstn (k * c) (concat rows) = concat (firstn k rows) /\
  skipn (k * c) (concat rows) = concat (skipn k rows).
Proof.
  revert rows; induction k as [| k IH]; intros rows Hrows; [now split |].
  destruct Hrows as [| r rows Hr Hrows].
  { cbn [concat firstn skipn]. now rewrite firstn_nil, skipn_nil. }
  destruct (IH rows Hrows) as [H1 H2].
  cbn [concat firstn skipn Nat.mul]. subst c. split.
  - now rewrite firstn_app_2, H1.
  - rewrite skipn_app, skipn_all2 by lia.
    replace (length r + k * length r - length r)%nat
      with (k * length r)%nat by lia.
    now rewrite H2.
Qed.

(** Cutting the concatenation of rows of one length into blocks of [k]
    rows. *)
Lemma chunks_concat (A : Type) c k d (rows : list (list A)) :
  Forall (fun r => length r = c) rows ->
  chunks (k * c) d (concat rows) = map (@concat A) (chunks k d rows).
Proof.
  revert rows; induction d as [| d IH]; intros rows Hrows; [reflexivity |].
  destruct (firstn_skipn_concat A c k rows Hrows) as [H1 H2].
  cbn [chunks map]. rewrite H1, H2, IH; [reflexivity |].
  now apply Forall_firstn_skipn.
Qed.

Lemma chunks_singletons (A : Type) (l : list A) :
  chunks 1 (length l) l = map (fun v => [v]) l.
Proof.
  induction l as [| v l IH]; [reflexivity |].
  cbn [length chunks map firstn skipn]. now rewrite IH.
Qed.

Lemma prod_app_one s c : prod (s ++ [c]) = prod s * c.
Proof.
  induction s as [| d s IH]; simpl; [lia |].
  fold (prod (s ++ [c])). fold (prod s). rewrite IH. lia.
Qed.

Lemma concat_concat_map (A B : Type) (g : A -> list B) (ls : list (list A)) :
  concat (map (fun l => concat (map g l)) ls) = concat (map g (concat ls)).
Proof.
  induction ls as [| l ls IH]; [reflexivity |].
  cbn [map concat]. now rewrite IH, map_app, concat_app.
Qed.

(** A [keepdims] result over the last axis broadcasts by repeating each
    of its elements along that axis. *)
Lemma broadcast_data_last (A : Type) s c (l : list A) :
  length l = prod s ->
  broadcast_data (s ++ [1]) (s ++ [c]) l
  = concat (map (fun v => repeat v c) l).
Proof.
  revert l; induction s as [| d s IH]; intros l Hl.
  - destruct l as [| v [| w l]]; try discriminate.
    cbn [app]. rewrite broadcast_data_cons.
    cbn [prod fold_right chunks firstn map hd broadcast_data concat].
    rewrite !app_nil_r.
    destruct (Nat.eqb_spec 1 c) as [<- | Hc]; [reflexivity |].
    change [v] with (repeat v 1).
    rewrite concat_repeat_repeat. now rewrite Nat.mul_1_r.
  - cbn [app]. rewrite broadcast_data_cons, Nat.eqb_refl.
    rewrite prod_app_one, Nat.mul_1_r.
    rewrite (map_ext_in _ (fun ch => concat (map (fun v => repeat v c) ch))).
    + rewrite concat_concat_map, concat_chunks; [reflexivity | exact Hl].
    + intros ch Hch. apply IH. eapply chunks_In_length; eauto.
Qed.

Section Rows.

Context {S : Type} {SC : Scalar S}.

Lemma fold_zip_columns z (r : list S) :
  fold_right (zip_with s_add) [z] (map (fun v => [v]) r)
  = [fold_right s_add z r].
Proof.
  induction r as [| v r IH]; [reflexivity |].
  cbn [map fold_right]. now rewrite IH.
Qed.

(** The sums over the last axis are the sums of the rows. *)
Lemma sum_axes_last s c (rows : list (list S)) :
  length rows = prod s -> Forall (fun r => length r = c) rows ->
  sum_axes (s ++ [c]) (repeat false (length s) ++ [true]) (concat rows)
  = map (fold_right s_add s_zero) rows.
Proof.
  revert rows; induction s as [| d s IH]; intros rows Hl Hrows.
  - destruct rows as [| r [| r' rows]]; try discriminate.
    inversion Hrows as [| ? ? Hr _]; subst.
    cbn [app length repeat concat map sum_axes reduced_shape prod
      fold_right]. rewrite app_nil_r, chunks_singletons.
    rewrite map_map. cbn [sum_axes]. apply fold_zip_columns.
  - cbn [app length repeat sum_axes].
    rewrite prod_app_one, (chunks_concat S c (prod s) d rows Hrows).
    rewrite map_map.
    rewrite (map_ext_in _ (map (fold_right s_add s_zero))).
    + rewrite <- concat_map, concat_chunks; [reflexivity | exact Hl].
    + intros rs Hrs. apply IH.
      * eapply chunks_In_length; eauto.
      * pose proof (chunks_Forall _ _ (prod s) d rows Hrows) as Hch.
        rewrite Forall_forall in Hch. now apply Hch.
Qed.

Lemma reduction_axes_last (s : list nat) (c : nat) :
  reduction_axes (AxisInt (-1)) (length (s ++ [c]))
  = Ok (repeat false (length s) ++ [true]).
Proof.
  rewrite length_app. cbn [length]. unfold reduction_axes.
  replace (legacy_scalar_axis (-1) (length s + 1)) with false
    by (unfold legacy_scalar_axis;
        destruct (Nat.eqb_spec (length s + 1) 0); [lia | reflexivity]).
  rewrite check_and_adjust_axis_in_range
    by (unfold axis_in_range; apply andb_true_iff; split;
        [apply Z.leb_le | apply Z.ltb_lt]; lia).
  cbn [bind]. f_equal.
  replace (axis_index (length s + 1) (-1)) with (length s)
    by (unfold axis_index; cbn [Z.ltb Z.compare]; lia).
  replace (length s + 1) with (length s + 1 + 0) by lia.
  induction (length s) as [| n IH]; [reflexivity |].
  cbn [Nat.add repeat set_flag app]. now rewrite IH.
Qed.

Lemma reduced_shape_last kd (s : list nat) (c : nat) :
  reduced_shape kd (s ++ [c]) (repeat false (length s) ++ [true])
  = s ++ (if kd then [1] else []).
Proof.
  induction s as [| d s IH]; [now destruct kd |].
  cbn [app length repeat reduced_shape]. now rewrite IH.
Qed.

End Rows.

Lemma zip_with_app (A B C : Type) (f : A -> B -> C) l1 l2 m1 m2 :
  length l1 = length m1 ->
  zip_with f (l1 ++ l2) (m1 ++ m2) = zip_with f l1 m1 ++ zip_with f l2 m2.
Proof.
  revert m1; induction l1 as [| a l1 IH]; intros [| b m1]; simpl;
    try discriminate; auto.
  intros [= Hl]. now rewrite IH.
Qed.

Section RealRows.

Local Open Scope R_scope.

(** Over the reals, along the last axis: [norm] is the Euclidean norm
    of each row, and [normalize] divides each row by its norm, or
    leaves it as it is when the square of the norm is at most [tiny]. *)
Lemma norm_and_normalize_rows t s c (rows : list (list R)) :
  length rows = prod s -> Forall (fun r => length r = c) rows ->
  concat rows <> [] ->
  let x := mk_ndarray t (s ++ [c]) (concat rows) in
  norm x (AxisInt (-1)) false = Ok (mk_ndarray t s (map euclid rows)) /\
  normalize x (AxisInt (-1))
  = Ok (mk_ndarray t (s ++ [c]) (concat (map (normalize_row t) rows))).
Proof.
  intros Hl Hrows Hne x.
  assert (Hwf : wf x).
  { unfold wf, size, x. cbn [data shape].
    rewrite prod_app_one, <- Hl.
    now rewrite (concat_length_uniform _ c rows Hrows). }
  assert (Hm : exists m, np_max (np_abs x) = Ok m).
  { unfold np_max, np_abs, map_array, x. cbn [data].
    destruct (concat rows); [contradiction | cbn; eauto]. }
  destruct Hm as [m Hm].
  assert (Hn : forall kd, norm x (AxisInt (-1)) kd
                 = Ok (mk_ndarray t (s ++ (if kd then [1%nat] else []))
                         (map euclid rows))).
  { intros kd. rewrite norm_eq, Hm. cbn [bind].
    unfold ndim. unfold x at 1. cbn [shape].
    rewrite reduction_axes_last. cbn [bind].
    rewrite norm_data_R by exact Hwf.
    unfold x. cbn [shape data dtype].
    rewrite reduced_shape_last.
    rewrite concat_map, sum_axes_last.
    - now rewrite !map_map.
    - now rewrite length_map.
    - apply Forall_forall. intros r Hr.
      apply in_map_iff in Hr as (r0 & <- & Hr0).
      rewrite length_map. rewrite Forall_forall in Hrows. now apply Hrows. }
  split.
  - rewrite Hn. now rewrite app_nil_r.
  - unfold normalize. rewrite normalize_and_return_norm_eq, Hn.
    cbn [bind fst]. f_equal.
    set (n := mk_ndarray t (s ++ [1%nat]) (map euclid rows)).
    change (normalized x n)
      with (mk_ndarray t (s ++ [c]) (data (normalized x n))).
    f_equal.
    rewrite (normalized_data x n (repeat false (length s) ++ [true])).
    + unfold slice_norms, broadcast_to, x, n. cbn [shape data dtype].
      rewrite pad_shape_same by (rewrite !length_app; reflexivity).
      rewrite broadcast_data_last by (rewrite length_map; exact Hl).
      rewrite map_map. clear -Hrows.
      induction Hrows as [| r rows Hr _ IH]; [reflexivity |].
      cbn [concat map]. rewrite <- IH, <- Hr.
      rewrite zip_with_app by now rewrite repeat_length.
      now rewrite zip_with_repeat_r.
    + exact Hwf.
    + unfold wf, size, n. cbn [shape data].
      now rewrite length_map, prod_app_one, Nat.mul_1_r.
    + unfold n, x. cbn [shape]. now rewrite reduced_shape_last.
Qed.

(** A row whose norm has a square of at most [tiny] is returned as it
    is; any other row is divided by its norm. *)
Lemma normalize_row_near_zero t (row : list R) :
  euclid row * euclid row <= tiny_R t -> normalize_row t row = row.
Proof.
  intros Hv. unfold normalize_row.
  rewrite (guarded_divisor_near_zero t _ Hv).
  rewrite (map_ext _ (fun u => u)) by (intros u; field).
  apply map_id.
Qed.

Lemma normalize_row_far t (row : list R) :
  tiny_R t < euclid row * euclid row ->
  normalize_row t row = map (fun v => v / euclid row) row.
Proof.
  intros Hv. unfold normalize_row.
  now rewrite (guarded_divisor_far t _ Hv).
Qed.

End RealRows.

(** * The claims *)

(** ** Shapes, axes and exceptions: every scalar type *)

Section StructuralClaims.

Context {S : Type} {SC : Scalar S}.


(** C6 (as amended): for a non-empty [x], [norm] with [axis=None] and
    [keepdims=False] returns a rank-0 array, and with [axis=None] and
    [keepdims=True] an array of the rank of [x] whose dimensions all
    have size 1; for a rank-0 [x], [norm] returns with [axis] [None],
    [0], [-1] or [()], whatever [keepdims], and every array it returns
    is rank-0. *)
Theorem norm_scalar_result (x : ndarray S) :
  wf x -> size x <> 0 ->
  (exists r, norm x AxisNone false = Ok r /\ shape r = []) /\
  (exists r, norm x AxisNone true = Ok r /\
     shape r = repeat 1 (ndim x)) /\
  (ndim x = 0 ->
   forall axis kd,
     (forall r, norm x axis kd = Ok r -> shape r = []) /\
     (axis = AxisNone \/ axis = AxisInt 0 \/ axis = AxisInt (-1) \/
      axis = AxisTuple [] ->
      exists r, norm x axis kd = Ok r /\ shape r = [])).
Proof.
  intros Hwf Hsz.
  destruct (np_max_abs_nonempty x Hwf Hsz) as [m Hm].
  split; [| split].
  - rewrite norm_eq, Hm. simpl. eexists. split; [reflexivity |].
    apply reduced_shape_all_drop.
  - rewrite norm_eq, Hm. simpl. eexists. split; [reflexivity |].
    apply reduced_shape_all_keep.
  - intros Hnd axis kd. unfold ndim in Hnd.
    apply length_zero_iff_nil in Hnd.
    rewrite norm_eq, Hm. unfold ndim. rewrite Hnd. simpl. split.
    + intros r.
      destruct (reduction_axes axis 0) as [flags | e]; simpl;
        [| discriminate].
      intros [= <-]. simpl. now destruct flags.
    + intros [-> | [-> | [-> | ->]]]; simpl; eexists; split; reflexivity.
Qed.

(** C7: [normalize(x, axis)] is the first component of
    [normalize_and_return_norm(x, axis, keepdims=True)], results and
    raised exceptions alike, and the second component of that call is
    [norm(x, axis, keepdims=True)]. *)
Theorem normalize_is_wrapper (x : ndarray S) axis :
  normalize x axis = fmap fst (normalize_and_return_norm x axis true) /\
  fmap snd (normalize_and_return_norm x axis true) = norm x axis true.
Proof.
  split; [reflexivity |].
  rewrite normalize_and_return_norm_eq.
  destruct (norm x axis true); reflexivity.
Qed.


(** C10: the norm component of
    [normalize_and_return_norm(x, axis, keepdims)] is
    [norm(x, axis, keepdims)], and the call raises exactly what [norm]
    raises: squeezing the [keepdims=True] norm gives the
    [keepdims=False] norm, and the guarded divisor never reaches the
    returned norm. *)
Theorem returned_norm_is_norm (x : ndarray S) axis kd :
  fmap snd (normalize_and_return_norm x axis kd) = norm x axis kd.
Proof.
  rewrite normalize_and_return_norm_eq, !norm_eq.
  destruct (np_max (np_abs x)) as [m | e]; simpl; [| reflexivity].
  destruct (reduction_axes axis (ndim x)) as [flags | e]; reflexivity.
Qed.

End StructuralClaims.

(** ** Values: real semantics *)

Section ValueClaims.

Local Open Scope R_scope.


(** C3: over the reals, whenever [norm(x, axis, keepdims=True)] returns
    [n], which it does for every non-empty [x] and valid axis,
    [normalize(x, axis)] and the first component of
    [normalize_and_return_norm(x, axis, keepdims)] return one array [y]
    of the shape of [x], and every element of [x] whose slice has a
    norm [v] with [v * v <= tiny], in particular with
    [v < sqrt(tiny)], is in [y] unchanged. *)
Theorem near_zero_pass_through (x : ndarray R) axis :
  wf x ->
  (forall n, norm x axis true = Ok n ->
   exists y,
     normalize x axis = Ok y /\
     (forall kd, fmap fst (normalize_and_return_norm x axis kd) = Ok y) /\
     shape y = shape x /\
     forall i, (i < size x)%nat ->
       let v := nth i (slice_norms x n) 0 in
       (v * v <= tiny_R (dtype x) ->
        nth i (data y) 0 = nth i (data x) 0) /\
       (v < sqrt (tiny_R (dtype x)) ->
        nth i (data y) 0 = nth i (data x) 0)) /\
  (size x <> 0%nat -> valid_axis (ndim x) axis ->
   exists n, norm x axis true = Ok n).
Proof.
  intros Hwf. split; [| now apply norm_returns].
  intros n Hn. exists (normalized x n).
  destruct (norm_Ok_inv x axis true n Hwf Hn)
    as (m & flags & Hm & Hfl & Hr & Hwn).
  assert (Hs : shape n = reduced_shape true (shape x) flags)
    by now rewrite Hr.
  repeat split.
  - unfold normalize. now rewrite normalize_and_return_norm_eq, Hn.
  - intros kd. rewrite normalize_and_return_norm_eq, Hn. simpl.
    rewrite norm_eq, Hm. simpl. now rewrite Hfl.
  - intros Hv. now apply (normalized_pass_through x n flags).
  - intros Hv. apply (normalized_pass_through x n flags); auto.
    apply below_sqrt_tiny; [| exact Hv].
    assert (Hnn : Forall (fun v => 0 <= v) (slice_norms x n)).
    { apply broadcast_data_Forall. rewrite Hr. simpl.
      apply norm_data_nonneg. }
    rewrite Forall_forall in Hnn. apply Hnn, nth_In.
    now rewrite (slice_norms_length _ x n flags Hs Hwn).
Qed.



End ValueClaims.

(** ** Concrete runs *)

Lemma size_nonzero (n : nat) : Datatypes.S n <> 0.
Proof. discriminate. Qed.

(** [norm(np.array([1/256, 0], dtype=np.float16), keepdims=True)] is
    [[1/256]]. *)
Lemma norm_small_vec :
  norm small_vec AxisNone true = Ok (mk_ndarray float16 [1] [(/ 256)%R]).
Proof.
  rewrite norm_eq. cbn [bind np_max np_abs map_array data small_vec map
    fold_left ndim shape length reduction_axes repeat dtype reduced_shape].
  rewrite norm_data_R by reflexivity.
  cbn [shape data small_vec sum_axes map chunks prod fold_right firstn skipn
    Nat.mul Nat.add reduced_shape repeat zip_with s_add s_zero R_scalar].
  do 3 f_equal.
  replace (/ 256 * / 256 + (0 * 0 + 0))%R with (/ 256 * / 256)%R by lra.
  apply sqrt_square. lra.
Qed.

(** The scenario of the specification: [norm([3.0, 4.0])] is 5. *)
Lemma norm_vec_3_4 kd :
  norm vec_3_4 AxisNone kd
  = Ok (mk_ndarray float64 (if kd then [1] else []) [5%R]).
Proof.
  rewrite norm_eq.
  cbn [bind np_max np_abs map_array data vec_3_4 map fold_left dtype
    reduction_axes ndim shape length repeat].
  rewrite norm_data_R by reflexivity.
  cbn [shape data vec_3_4 sum_axes map chunks prod fold_right firstn
    skipn Nat.mul Nat.add reduced_shape repeat zip_with s_add s_zero
    R_scalar].
  do 3 f_equal.
  replace (3 * 3 + (4 * 4 + 0))%R with (5 * 5)%R by lra.
  apply sqrt_square. lra.
Qed.

(** [normalize_and_return_norm([3.0, 4.0])] is [([0.6, 0.8], 5.0)], and
    [normalize([3.0, 4.0])] is [[0.6, 0.8]]. *)
Lemma normalize_and_return_norm_vec_3_4 :
  normalize_and_return_norm vec_3_4 AxisNone false
  = Ok (mk_ndarray float64 [2] [(3 / 5)%R; (4 / 5)%R],
        mk_ndarray float64 [] [5%R]) /\
  normalize vec_3_4 AxisNone
  = Ok (mk_ndarray float64 [2] [(3 / 5)%R; (4 / 5)%R]).
Proof.
  assert (Hy : normalized vec_3_4 (mk_ndarray float64 [1] [5%R])
               = mk_ndarray float64 [2] [(3 / 5)%R; (4 / 5)%R]).
  { change (normalized vec_3_4 (mk_ndarray float64 [1] [5%R]))
      with (mk_ndarray float64 [2]
              (data (normalized vec_3_4 (mk_ndarray float64 [1] [5%R])))).
    rewrite (normalized_data _ _ [true]) by reflexivity.
    cbn [slice_norms broadcast_to pad_shape shape data vec_3_4 length
      Nat.sub repeat app broadcast_data chunks prod fold_right Nat.mul
      Nat.add firstn skipn map Nat.eqb concat hd zip_with dtype s_div
      R_scalar].
    pose proof (tiny_R_lt_1 float64) as Ht.
    rewrite (guarded_divisor_far float64 5) by lra.
    reflexivity. }
  unfold normalize.
  split; rewrite normalize_and_return_norm_eq, !norm_vec_3_4;
    cbn [bind fst]; now rewrite Hy.
Qed.

(** The scenario of the specification with [axis=1]: the norms of the
    rows of [[3.0, 4.0], [0.0, 0.0]] are [5.0, 0.0]. *)
Lemma norm_mat_rows kd :
  norm mat_3_4_0_0 (AxisInt 1) kd
  = Ok (mk_ndarray float64 (if kd then [2; 1] else [2]) [5%R; 0%R]).
Proof.
  rewrite norm_eq.
  change (reduction_axes (AxisInt 1) (ndim mat_3_4_0_0))
    with (Ok [false; true]).
  cbn [bind np_max np_abs map_array data mat_3_4_0_0 map fold_left dtype].
  rewrite norm_data_R by reflexivity.
  cbn [shape data mat_3_4_0_0 sum_axes map chunks prod fold_right firstn
    skipn Nat.mul Nat.add reduced_shape repeat zip_with concat app
    s_add s_zero R_scalar].
  f_equal. f_equal; [now destruct kd |].
  f_equal; [| f_equal].
  - replace (3 * 3 + (4 * 4 + 0))%R with (5 * 5)%R by lra.
    apply sqrt_square. lra.
  - replace (0 * 0 + (0 * 0 + 0))%R with 0%R by lra. apply sqrt_0.
Qed.

(** And [normalize] divides the first row by 5 and leaves the second,
    of norm 0, as it is. *)
Lemma normalize_mat_rows :
  normalize mat_3_4_0_0 (AxisInt 1)
  = Ok (mk_ndarray float64 [2; 2] [(3 / 5)%R; (4 / 5)%R; 0%R; 0%R]).
Proof.
  unfold normalize.
  rewrite normalize_and_return_norm_eq, norm_mat_rows.
  cbn [bind fst]. f_equal.
  change (normalized mat_3_4_0_0 (mk_ndarray float64 [2; 1] [5%R; 0%R]))
    with (mk_ndarray float64 [2; 2]
            (data (normalized mat_3_4_0_0
                     (mk_ndarray float64 [2; 1] [5%R; 0%R])))).
  rewrite (normalized_data _ _ [false; true]) by reflexivity.
  cbn [slice_norms broadcast_to pad_shape shape data mat_3_4_0_0 length
    Nat.sub repeat app broadcast_data chunks prod fold_right Nat.mul Nat.add
    firstn skipn map Nat.eqb concat hd zip_with dtype s_div R_scalar].
  pose proof (tiny_R_lt_1 float64) as Ht.
  pose proof (tiny_R_pos float64) as Hp.
  rewrite (guarded_divisor_far float64 5) by lra.
  rewrite (guarded_divisor_near_zero float64 0) by lra.
  f_equal. repeat (f_equal; try lra).
Qed.



(** C3 at [x = [1/256, 0]] in float16, [axis=None]: the norm 1/256 has
    a square below [tiny], and [normalize] returns both elements of [x]
    as they are. *)
Lemma near_zero_pass_through_witness :
  exists y, normalize small_vec AxisNone = Ok y /\
    shape y = [2] /\
    nth 0 (data y) 0%R = (/ 256)%R /\ nth 1 (data y) 0%R = 0%R.
Proof.
  destruct (proj1 (near_zero_pass_through small_vec AxisNone eq_refl)
              (mk_ndarray float16 [1] [(/ 256)%R]) norm_small_vec)
    as (y & Hy & _ & Hs & Hpt).
  exists y. split; [exact Hy |]. split; [exact Hs |].
  assert (Htiny : (/ 256 * / 256 <= tiny_R float16)%R).
  { unfold tiny_R. simpl pow. lra. }
  split.
  - apply (proj1 (Hpt 0 (Nat.lt_0_succ 1))). exact Htiny.
  - apply (proj1 (Hpt 1 (Nat.lt_succ_diag_r 1))). exact Htiny.
Defined.





(** C6 at [x = [3.0, 4.0]] and at the 0-d array [np.array(2.0)]. *)
Lemma norm_scalar_result_witness :
  (exists r, norm vec_3_4 AxisNone false = Ok r /\ shape r = []) /\
  (exists r, norm vec_3_4 AxisNone true = Ok r /\ shape r = [1]) /\
  (exists r, norm scalar_2 (AxisInt (-1)) true = Ok r /\ shape r = []).
Proof.
  destruct (norm_scalar_result vec_3_4 eq_refl (size_nonzero 1))
    as (H1 & H2 & _).
  destruct (norm_scalar_result scalar_2 eq_refl (size_nonzero 0))
    as (_ & _ & H3).
  split; [exact H1 |]. split; [exact H2 |].
  apply (H3 eq_refl (AxisInt (-1)) true). auto.
Defined.

(** C6 as stated fails with [keepdims=True]: on [x = [[3.0, 4.0]]] with
    [axis=None], [norm] returns an array of shape (1, 1), of rank 2.
    It also fails on an array without elements, [np.zeros((0,))], where
    [norm] with [axis=None] raises. *)
Lemma keepdims_norm_is_not_scalar :
  (wf row_3_4 /\
   (exists r, norm row_3_4 AxisNone true = Ok r /\
      shape r = [1; 1] /\ ndim r = 2) /\
   ~ (exists r, norm row_3_4 AxisNone true = Ok r /\ ndim r = 0)) /\
  (wf empty_1d /\
   norm empty_1d AxisNone false = Raise ZeroSizeReduction).
Proof.
  assert (H : exists r, norm row_3_4 AxisNone true = Ok r /\
                shape r = [1; 1] /\ ndim r = 2).
  { rewrite norm_eq. cbn [bind np_max np_abs map_array data row_3_4 map].
    eexists. repeat split. }
  split; [| now split].
  split; [reflexivity |]. split; [exact H |].
  destruct H as (r & Hr & _ & Hnd). intros (r' & Hr' & Hnd').
  rewrite Hr in Hr'. injection Hr' as <-. rewrite Hnd in Hnd'. discriminate.
Qed.




(** * Further properties of [safe.py] *)

(** ** The axis argument *)








Lemma reduction_axes_negative k nd :
  (0 <= k < Z.of_nat nd)%Z ->
  reduction_axes (AxisInt (k - Z.of_nat nd)) nd
  = reduction_axes (AxisInt k) nd.
Proof.
  intros Hk. unfold reduction_axes, legacy_scalar_axis.
  destruct (Nat.eqb_spec nd 0) as [-> | Hnd]; [simpl in Hk; lia |].
  cbn [andb].
  rewrite !check_and_adjust_axis_in_range
    by (unfold axis_in_range; apply andb_true_iff; split;
        [apply Z.leb_le | apply Z.ltb_lt]; lia).
  cbn [bind]. do 2 f_equal. unfold axis_index.
  destruct (Z.ltb_spec (k - Z.of_nat nd) 0), (Z.ltb_spec k 0); lia.
Qed.

Lemma set_flag_prefix i (l : list bool) :
  set_flag i (repeat true i ++ false :: l) = repeat true i ++ true :: l.
Proof.
  induction i as [| i IH]; [reflexivity |].
  cbn [repeat app set_flag]. now rewrite IH.
Qed.

Lemma repeat_true_snoc i (l : list bool) :
  repeat true i ++ true :: l = repeat true (Datatypes.S i) ++ l.
Proof.
  induction i as [| i IH]; [reflexivity |].
  cbn [repeat app]. now rewrite IH.
Qed.

Lemma mark_axes_seq i n :
  mark_axes (seq i n) (repeat true i ++ repeat false n)
  = Ok (repeat true (i + n)).
Proof.
  revert i; induction n as [| n IH]; intros i.
  - simpl. now rewrite app_nil_r, Nat.add_0_r.
  - cbn [seq mark_axes repeat].
    rewrite app_nth2 by (rewrite repeat_length; lia).
    rewrite repeat_length, Nat.sub_diag. cbn [nth].
    rewrite set_flag_prefix, repeat_true_snoc, IH. do 2 f_equal. lia.
Qed.

Lemma adjust_axes_seq i n nd :
  i + n <= nd ->
  adjust_axes (map Z.of_nat (seq i n)) nd = Ok (seq i n).
Proof.
  revert i; induction n as [| n IH]; intros i Hle; [reflexivity |].
  cbn [seq map adjust_axes].
  rewrite check_and_adjust_axis_in_range
    by (unfold axis_in_range; apply andb_true_iff; split;
        [apply Z.leb_le | apply Z.ltb_lt]; lia).
  cbn [bind]. rewrite IH by lia. cbn [bind]. do 2 f_equal.
  unfold axis_index. destruct (Z.ltb_spec (Z.of_nat i) 0); lia.
Qed.

(** [axis=None] is the tuple of all axes. *)
Lemma reduction_axes_all nd :
  reduction_axes (AxisTuple (all_axes nd)) nd = reduction_axes AxisNone nd.
Proof.
  unfold all_axes. simpl. rewrite adjust_axes_seq by lia. cbn [bind].
  apply (mark_axes_seq 0 nd).
Qed.

(** An integer axis in range is the tuple of that one axis. *)
Lemma reduction_axes_singleton k nd :
  axis_in_range nd k = true ->
  reduction_axes (AxisTuple [k]) nd = reduction_axes (AxisInt k) nd.
Proof.
  intros Hk. simpl.
  rewrite (in_range_not_legacy _ _ Hk).
  rewrite (check_and_adjust_axis_in_range _ _ Hk). cbn [bind mark_axes].
  now rewrite nth_repeat_false.
Qed.

Section FurtherStructure.

Context {S : Type} {SC : Scalar S}.

(** The three functions depend on the axis argument only through the
    dimensions it selects. *)
Lemma same_axes_same_results (x : ndarray S) axis axis' kd :
  reduction_axes axis (ndim x) = reduction_axes axis' (ndim x) ->
  norm x axis kd = norm x axis' kd /\
  normalize_and_return_norm x axis kd
  = normalize_and_return_norm x axis' kd /\
  normalize x axis = normalize x axis'.
Proof.
  intros Hax.
  assert (Hn : forall kd', norm x axis kd' = norm x axis' kd')
    by (intros kd'; now rewrite !norm_eq, Hax).
  repeat split.
  - apply Hn.
  - now rewrite !normalize_and_return_norm_eq, !Hn.
  - unfold normalize. now rewrite !normalize_and_return_norm_eq, !Hn.
Qed.

(** X1: on an array without elements, [norm],
    [normalize_and_return_norm] and [normalize] raise the [ValueError]
    of [np.max] (zero-size array to reduction operation maximum),
    whatever the axis argument, valid or not, and whatever [keepdims]. *)
Theorem empty_input_raises (x : ndarray S) axis kd :
  wf x -> size x = 0 ->
  norm x axis kd = Raise ZeroSizeReduction /\
  normalize_and_return_norm x axis kd = Raise ZeroSizeReduction /\
  normalize x axis = Raise ZeroSizeReduction.
Proof.
  intros Hwf Hsz.
  assert (Hn : forall kd', norm x axis kd' = Raise ZeroSizeReduction).
  { intros kd'. now rewrite norm_eq, (np_max_abs_empty x Hwf Hsz). }
  repeat split.
  - apply Hn.
  - now rewrite normalize_and_return_norm_eq, Hn.
  - unfold normalize. now rewrite normalize_and_return_norm_eq, Hn.
Qed.

(** X2: a negative axis counts from the last dimension: for
    [0 <= k < ndim], the axis [k - ndim] gives in each of the three
    functions what the axis [k] gives. *)
Theorem negative_axis_counts_from_last (x : ndarray S) (k : Z) kd :
  (0 <= k < Z.of_nat (ndim x))%Z ->
  norm x (AxisInt (k - Z.of_nat (ndim x))) kd = norm x (AxisInt k) kd /\
  normalize_and_return_norm x (AxisInt (k - Z.of_nat (ndim x))) kd
  = normalize_and_return_norm x (AxisInt k) kd /\
  normalize x (AxisInt (k - Z.of_nat (ndim x))) = normalize x (AxisInt k).
Proof.
  intros Hk. apply same_axes_same_results.
  now apply reduction_axes_negative.
Qed.

(** X3: on an array of rank at least 1, [axis=None] gives in each of
    the three functions what the tuple of all axes [(0, ..., ndim - 1)]
    gives, and an integer axis in range what the one-element tuple of
    that axis gives. *)
Theorem axis_spellings_agree (x : ndarray S) kd :
  ndim x <> 0 ->
  (norm x (AxisTuple (all_axes (ndim x))) kd = norm x AxisNone kd /\
   normalize_and_return_norm x (AxisTuple (all_axes (ndim x))) kd
   = normalize_and_return_norm x AxisNone kd /\
   normalize x (AxisTuple (all_axes (ndim x))) = normalize x AxisNone) /\
  (forall k, axis_in_range (ndim x) k = true ->
     norm x (AxisTuple [k]) kd = norm x (AxisInt k) kd /\
     normalize_and_return_norm x (AxisTuple [k]) kd
     = normalize_and_return_norm x (AxisInt k) kd /\
     normalize x (AxisTuple [k]) = normalize x (AxisInt k)).
Proof.
  intros _. split.
  - apply same_axes_same_results, reduction_axes_all.
  - intros k Hk. now apply same_axes_same_results, reduction_axes_singleton.
Qed.



(** X6: the norm computed with [keepdims=True] broadcasts against the
    input: it has the rank of [x], and dividing or multiplying [x] by
    it succeeds and gives an array of the shape of [x]. *)
Theorem keepdims_norm_broadcasts (x n : ndarray S) axis :
  norm x axis true = Ok n ->
  ndim n = ndim x /\
  (exists q, np_divide x n = Ok q /\ shape q = shape x) /\
  (exists q, np_multiply x n = Ok q /\ shape q = shape x).
Proof.
  rewrite norm_eq. intros H. inv_bind H. inv_bind H. injection H as <-.
  pose proof (reduction_axes_length _ _ _ Ha0) as Hlen.
  unfold np_divide, np_multiply, binary_op, ndim. cbn [shape].
  rewrite broadcast_shapes_reduced by exact Hlen.
  cbn [bind]. split; [apply reduced_shape_keep_length |].
  split; eexists; split; reflexivity.
Qed.

End FurtherStructure.

(** ** A factor that is constant on each slice leaves the sums *)

Lemma firstn_skipn_app_length (A : Type) (l1 l2 : list A) n :
  length l1 = n -> firstn n (l1 ++ l2) = l1 /\ skipn n (l1 ++ l2) = l2.
Proof.
  intros <-. split.
  - rewrite firstn_app, Nat.sub_diag, firstn_all. cbn. apply app_nil_r.
  - rewrite skipn_app, Nat.sub_diag, skipn_all. reflexivity.
Qed.

Section RealSlices.

Local Open Scope R_scope.

Lemma zip_with_mul_zeros k (m : list R) :
  length m = k -> zip_with Rmult (repeat 0 k) m = repeat 0 k.
Proof.
  revert m; induction k as [| k IH]; intros [| v m]; simpl;
    try discriminate; auto.
  intros [= Hl]. rewrite (IH _ Hl). f_equal. lra.
Qed.

Lemma zip_with_add_mul (u acc m : list R) :
  zip_with Rplus (zip_with Rmult u m) (zip_with Rmult acc m)
  = zip_with Rmult (zip_with Rplus u acc) m.
Proof.
  revert acc m; induction u as [| a u IH]; intros [| b acc] [| c m];
    simpl; auto.
  rewrite IH. f_equal. lra.
Qed.

(** Multiplying every element by a factor that depends only on its
    slice multiplies the sum of the slice by that factor. *)
Lemma sum_axes_scaled s flags (l m : list R) :
  length l = prod s ->
  length m = prod (reduced_shape true s flags) ->
  sum_axes s flags
    (zip_with Rmult l (broadcast_data (reduced_shape true s flags) s m))
  = zip_with Rmult (sum_axes s flags l) m.
Proof.
  revert flags l m; induction s as [| d s IH]; intros flags l m Hl Hm.
  - now destruct flags.
  - destruct flags as [| b fs].
    + cbn [reduced_shape] in *. now rewrite broadcast_data_refl by exact Hm.
    + set (N := prod s).
      set (K := prod (reduced_shape true s fs)).
      assert (HK : prod (reduced_shape false s fs) = K)
        by (symmetry; apply prod_reduced_shape).
      assert (Hbd : forall c : list R, length c = K ->
                length (broadcast_data (reduced_shape true s fs) s c) = N)
        by (intros c Hc; now apply broadcast_data_reduced_length).
      change (prod (d :: s)) with (d * N)%nat in Hl.
      destruct b; cbn [reduced_shape] in Hm |- *;
        rewrite broadcast_data_cons; cbn [sum_axes]; fold N; fold K.
      * (* the dimension is reduced: one block of factors, repeated *)
        change (prod (1%nat :: reduced_shape true s fs))
          with (1 * K)%nat in Hm.
        rewrite Nat.mul_1_l in Hm.
        replace (chunks K 1 m) with [m]
          by (cbn [chunks]; now rewrite <- Hm, firstn_all).
        cbn [map hd].
        set (B := broadcast_data (reduced_shape true s fs) s m).
        assert (HB : length B = N) by now apply Hbd.
        replace (if (1 =? d)%nat then concat [B] else concat (repeat B d))
          with (concat (repeat B d)).
        2:{ destruct (Nat.eqb_spec 1 d) as [<- | _]; reflexivity. }
        rewrite HK. clear Hbd. revert l Hl.
        induction d as [| d IHd]; intros l Hl.
        -- cbn [chunks map fold_right]. symmetry.
           now apply zip_with_mul_zeros.
        -- cbn [repeat concat].
           rewrite <- (firstn_skipn N l) at 1.
           rewrite zip_with_app
             by (rewrite length_firstn, Hl, HB; cbn [Nat.mul]; lia).
           cbn [chunks map fold_right].
           destruct (firstn_skipn_app_length R
                       (zip_with Rmult (firstn N l) B)
                       (zip_with Rmult (skipn N l) (concat (repeat B d))) N)
             as [H1 H2].
           { rewrite zip_with_length, length_firstn, Hl, HB.
             cbn [Nat.mul]. lia. }
           rewrite H1, H2.
           rewrite IHd by (rewrite length_skipn, Hl; cbn [Nat.mul]; lia).
           unfold B at 1.
           rewrite IH; [apply zip_with_add_mul | | exact Hm].
           rewrite length_firstn, Hl. cbn [Nat.mul]. fold N. lia.
      * (* the dimension is kept: one block of factors per block *)
        change (prod (d :: reduced_shape true s fs))
          with (d * K)%nat in Hm.
        rewrite Nat.eqb_refl. clear HK. revert l m Hl Hm.
        induction d as [| d IHd]; intros l m Hl Hm.
        -- destruct l; [reflexivity | discriminate].
        -- change (chunks K (Datatypes.S d) m)
             with (firstn K m :: chunks K d (skipn K m)).
           set (m1 := firstn K m). set (m2 := skipn K m).
           assert (Hm1 : length m1 = K)
             by (unfold m1; rewrite length_firstn, Hm; cbn [Nat.mul]; lia).
           cbn [map concat].
           rewrite <- (firstn_skipn N l) at 1.
           rewrite zip_with_app
             by (rewrite length_firstn, Hl, Hbd by exact Hm1;
                 cbn [Nat.mul]; lia).
           cbn [chunks map concat].
           destruct (firstn_skipn_app_length R
                       (zip_with Rmult (firstn N l)
                          (broadcast_data (reduced_shape true s fs) s m1))
                       (zip_with Rmult (skipn N l)
                          (concat
                             (map
                                (broadcast_data (reduced_shape true s fs) s)
                                (chunks K d m2)))) N)
             as [H1 H2].
           { rewrite zip_with_length, length_firstn, Hl, Hbd by exact Hm1.
             cbn [Nat.mul]. lia. }
           rewrite H1, H2.
           rewrite IHd.
           ++ rewrite IH; [| | exact Hm1].
              ** rewrite <- zip_with_app.
                 --- unfold m1, m2. now rewrite firstn_skipn.
                 --- rewrite sum_axes_length, Hm1;
                       [symmetry; apply prod_reduced_shape |].
                     rewrite length_firstn, Hl. cbn [Nat.mul]. fold N. lia.
              ** rewrite length_firstn, Hl. cbn [Nat.mul]. fold N. lia.
           ++ rewrite length_skipn, Hl. cbn [Nat.mul]. lia.
           ++ unfold m2. rewrite length_skipn, Hm. cbn [Nat.mul]. lia.
Qed.

End RealSlices.

(** ** The norm of a normalized array *)

Section RealFurther.

Local Open Scope R_scope.

Lemma guarded_divisor_cases t v :
  (tiny_R t < v * v /\ guarded_divisor t v = v) \/
  (v * v <= tiny_R t /\ guarded_divisor t v = 1).
Proof.
  destruct (Rlt_le_dec (tiny_R t) (v * v)) as [H | H].
  - left. split; [exact H | now apply guarded_divisor_far].
  - right. split; [exact H | now apply guarded_divisor_near_zero].
Qed.

(** The divisor of [normalize] is never 0. *)
Lemma guarded_divisor_nonzero t v : guarded_divisor t v <> 0.
Proof.
  pose proof (tiny_R_pos t) as Ht.
  destruct (guarded_divisor_cases t v) as [[H ->] | [H ->]]; [| lra].
  intros ->. lra.
Qed.

(** A slice norm divided by its guarded divisor is 1, or is the norm
    itself when that is near zero; its own guarded divisor is 1. *)
Lemma guarded_quotient t v :
  0 <= v ->
  (tiny_R t < v * v -> v / guarded_divisor t v = 1) /\
  (v * v <= tiny_R t -> v / guarded_divisor t v = v) /\
  guarded_divisor t (v / guarded_divisor t v) = 1.
Proof.
  intros Hv. pose proof (tiny_R_pos t) as Ht.
  pose proof (tiny_R_lt_1 t) as Ht1.
  destruct (guarded_divisor_cases t v) as [[H ->] | [H ->]].
  - assert (Hv0 : v <> 0) by (intros ->; lra).
    replace (v / v) with 1 by (field; exact Hv0).
    repeat split; try lra.
    apply guarded_divisor_far. lra.
  - replace (v / 1) with v by field.
    repeat split; try lra.
    now apply guarded_divisor_near_zero.
Qed.

Lemma sqrt_guarded t (u : R) :
  0 <= u ->
  sqrt (u * / (guarded_divisor t (sqrt u) * guarded_divisor t (sqrt u)))
  = sqrt u / guarded_divisor t (sqrt u).
Proof.
  intros Hu. pose proof (tiny_R_pos t) as Ht.
  destruct (guarded_divisor_cases t (sqrt u)) as [[H ->] | [H ->]].
  - rewrite sqrt_sqrt in * by exact Hu.
    replace (u * / u) with 1 by (field; lra).
    rewrite sqrt_1. field. intros H0. rewrite <- (sqrt_sqrt u) in H by exact Hu.
    rewrite H0 in H. lra.
  - replace (u * / (1 * 1)) with u by field. field.
Qed.

(** The elements [norm] computes on the normalized array: each norm of
    [x] divided by its guarded divisor. *)
Lemma norm_data_normalized (x : ndarray R) m flags m' :
  wf x -> length flags = ndim x ->
  let n := mk_ndarray (dtype x) (reduced_shape true (shape x) flags)
             (norm_data x m flags) in
  norm_data (normalized x n) m' flags
  = map (fun v => v / guarded_divisor (dtype x) v) (data n).
Proof.
  intros Hwf Hlen n.
  assert (Hs : shape n = reduced_shape true (shape x) flags) by reflexivity.
  assert (Hwn : wf n).
  { unfold wf, size, n. cbn [shape data].
    rewrite norm_data_length by exact Hwf.
    symmetry. apply prod_reduced_shape. }
  assert (Hwy : wf (normalized x n)).
  { unfold wf, size. cbn [shape].
    rewrite (normalized_data x n flags Hwf Hwn Hs), zip_with_length.
    rewrite (slice_norms_length _ x n flags Hs Hwn), Hwf.
    apply Nat.min_id. }
  rewrite norm_data_R by exact Hwy.
  change (shape (normalized x n)) with (shape x).
  rewrite (normalized_data x n flags Hwf Hwn Hs).
  unfold slice_norms, broadcast_to.
  rewrite pad_shape_same by (rewrite Hs; apply reduced_shape_keep_length).
  rewrite Hs.
  set (t := dtype x).
  set (h := fun v => / (guarded_divisor t v * guarded_divisor t v)).
  assert (Hsq : map (fun v => v * v)
                  (zip_with (fun u nv => s_div u (guarded_divisor t nv))
                     (data x)
                     (broadcast_data (reduced_shape true (shape x) flags)
                        (shape x) (data n)))
                = zip_with Rmult (map (fun v => v * v) (data x))
                    (broadcast_data (reduced_shape true (shape x) flags)
                       (shape x) (map h (data n)))).
  { rewrite broadcast_data_map, zip_with_map_l, zip_with_map_r.
    generalize (broadcast_data (reduced_shape true (shape x) flags)
                  (shape x) (data n)).
    generalize (data x). clear. intros l.
    induction l as [| u l IH]; intros [| w bn]; cbn [zip_with map]; auto.
    rewrite IH. f_equal. unfold h. cbn [s_div R_scalar].
    field. apply guarded_divisor_nonzero. }
  rewrite Hsq.
  rewrite sum_axes_scaled.
  - unfold n at 1 2. cbn [data]. rewrite norm_data_R by exact Hwf.
    set (T := sum_axes (shape x) flags (map (fun v => v * v) (data x))).
    rewrite zip_with_map_r, zip_with_map_r, zip_with_diag, !map_map.
    apply map_ext_in. intros u Hu. unfold h.
    apply sqrt_guarded.
    pose proof (sum_axes_squares_nonneg (shape x) flags (data x)) as Hnn.
    rewrite Forall_forall in Hnn. now apply Hnn.
  - rewrite length_map. exact Hwf.
  - rewrite length_map. unfold wf, size in Hwn. now rewrite Hs in Hwn.
Qed.

End RealFurther.

(** ** Values of the three functions over the reals *)

Section RealProperties.

Local Open Scope R_scope.

Lemma np_max_abs_bound (x : ndarray R) m :
  np_max (np_abs x) = Ok m -> Forall (fun v => Rabs v <= m) (data x).
Proof.
  unfold np_max, np_abs, map_array. cbn [data s_abs s_maximum R_scalar].
  destruct (data x) as [| v vs]; [discriminate |].
  cbn [map]. intros [= <-].
  assert (Hfold : forall l acc,
             acc <= fold_left Rmax (map Rabs l) acc /\
             Forall (fun v => Rabs v <= fold_left Rmax (map Rabs l) acc) l).
  { induction l as [| u l IH]; intros acc; simpl.
    - split; [lra | constructor].
    - destruct (IH (Rmax acc (Rabs u))) as [H1 H2].
      pose proof (Rmax_l acc (Rabs u)). pose proof (Rmax_r acc (Rabs u)).
      split; [lra |]. constructor; [lra | exact H2]. }
  destruct (Hfold vs (Rabs v)) as [H1 H2]. now constructor.
Qed.

Lemma normalize_Ok_inv (x y : ndarray R) axis :
  wf x -> normalize x axis = Ok y ->
  exists m flags,
    np_max (np_abs x) = Ok m /\
    reduction_axes axis (ndim x) = Ok flags /\
    size x <> 0%nat /\
    let n := mk_ndarray (dtype x) (reduced_shape true (shape x) flags)
               (norm_data x m flags) in
    norm x axis true = Ok n /\ wf n /\ y = normalized x n.
Proof.
  intros Hwf. unfold normalize.
  rewrite normalize_and_return_norm_eq.
  destruct (norm x axis true) as [a | e] eqn:Ha; cbn [bind fst];
    [| discriminate].
  intros [= <-].
  destruct (norm_Ok_inv x axis true a Hwf Ha)
    as (m & flags & Hm & Hfl & Hr & Hwa).
  exists m, flags. repeat split; auto.
  - intros Hsz. rewrite (np_max_abs_empty x Hwf Hsz) in Hm. discriminate.
  - now rewrite <- Hr.
  - now rewrite <- Hr.
  - now rewrite <- Hr.
Qed.

Lemma wf_normalized (x n : ndarray R) flags :
  wf x -> wf n -> shape n = reduced_shape true (shape x) flags ->
  wf (normalized x n).
Proof.
  intros Hwf Hwn Hs. unfold wf, size. cbn [shape].
  rewrite (normalized_data x n flags Hwf Hwn Hs), zip_with_length.
  rewrite (slice_norms_length _ x n flags Hs Hwn), Hwf. apply Nat.min_id.
Qed.

(** [norm] on the array [normalize] returned. *)
Lemma norm_of_normalized (x y : ndarray R) axis kd :
  wf x -> normalize x axis = Ok y ->
  exists m flags,
    reduction_axes axis (ndim x) = Ok flags /\
    norm x axis kd
    = Ok (mk_ndarray (dtype x) (reduced_shape kd (shape x) flags)
            (norm_data x m flags)) /\
    norm y axis kd
    = Ok (mk_ndarray (dtype x) (reduced_shape kd (shape x) flags)
            (map (fun v => v / guarded_divisor (dtype x) v)
               (norm_data x m flags))).
Proof.
  intros Hwf Hy.
  destruct (normalize_Ok_inv x y axis Hwf Hy)
    as (m & flags & Hm & Hfl & Hsz & Hn & Hwn & ->).
  exists m, flags. split; [exact Hfl |]. split.
  - now rewrite norm_eq, Hm, Hfl.
  - set (n := mk_ndarray (dtype x) (reduced_shape true (shape x) flags)
                (norm_data x m flags)) in *.
    assert (Hwy : wf (normalized x n))
      by now apply (wf_normalized x n flags).
    rewrite norm_eq.
    destruct (np_max_abs_nonempty (normalized x n) Hwy Hsz) as [m' ->].
    change (ndim (normalized x n)) with (ndim x). rewrite Hfl. cbn [bind].
    change (dtype (normalized x n)) with (dtype x).
    change (shape (normalized x n)) with (shape x).
    do 2 f_equal.
    apply (norm_data_normalized x m flags m' Hwf).
    now apply reduction_axes_length in Hfl.
Qed.

(** X7: after [normalize], every slice whose norm was not near zero has
    norm exactly 1, and every other slice keeps its norm: the norm of
    [normalize(x, axis)] has the shape of the norm of [x], with 1 where
    the norm [v] of [x] has [v * v > tiny] and [v] where
    [v * v <= tiny]. *)
Theorem normalized_has_unit_norm (x y n : ndarray R) axis kd :
  wf x -> norm x axis kd = Ok n -> normalize x axis = Ok y ->
  exists n', norm y axis kd = Ok n' /\
    shape n' = shape n /\ length (data n') = length (data n) /\
    forall j, (j < length (data n))%nat ->
      let v := nth j (data n) 0 in
      (tiny_R (dtype x) < v * v -> nth j (data n') 0 = 1) /\
      (v * v <= tiny_R (dtype x) -> nth j (data n') 0 = v).
Proof.
  intros Hwf Hn Hy.
  destruct (norm_of_normalized x y axis kd Hwf Hy)
    as (m & flags & Hfl & Hnx & Hny).
  rewrite Hnx in Hn. injection Hn as <-.
  eexists. split; [exact Hny |]. cbn [shape data].
  split; [reflexivity |]. split; [apply length_map |].
  intros j Hj. cbv zeta. set (v := nth j (norm_data x m flags) 0).
  assert (Hv : 0 <= v).
  { pose proof (norm_data_nonneg x m flags) as Hnn.
    rewrite Forall_forall in Hnn. apply Hnn. now apply nth_In. }
  rewrite (nth_indep _ 0 (0 / guarded_divisor (dtype x) 0))
    by now rewrite length_map.
  rewrite (map_nth (fun v => v / guarded_divisor (dtype x) v)).
  fold v. destruct (guarded_quotient (dtype x) v Hv) as (H1 & H2 & _).
  split; assumption.
Qed.

Lemma zip_with_div_one t (l m : list R) :
  Forall (fun w => guarded_divisor t w = 1) m -> length m = length l ->
  zip_with (fun u w => u / guarded_divisor t w) l m = l.
Proof.
  intros Hm. revert l. induction Hm as [| w m Hw _ IH]; intros [| u l];
    cbn [length zip_with]; try discriminate; auto.
  intros [= Hl]. rewrite (IH _ Hl), Hw. f_equal. field.
Qed.

(** X8: [normalize] is idempotent: whenever [normalize(x, axis)]
    returns [y], [normalize(y, axis)] returns [y] again. *)
Theorem normalize_idempotent (x y : ndarray R) axis :
  wf x -> normalize x axis = Ok y -> normalize y axis = Ok y.
Proof.
  intros Hwf Hy.
  destruct (norm_of_normalized x y axis true Hwf Hy)
    as (m & flags & Hfl & Hnx & Hny).
  destruct (normalize_Ok_inv x y axis Hwf Hy)
    as (m0 & flags0 & _ & Hfl0 & _ & _ & Hwn & Hyeq).
  rewrite Hfl in Hfl0. injection Hfl0 as <-.
  assert (Hwy : wf y).
  { rewrite Hyeq. apply (wf_normalized x _ flags); auto. }
  unfold normalize. rewrite normalize_and_return_norm_eq, Hny.
  cbn [bind fst]. f_equal.
  set (n' := mk_ndarray (dtype x) (reduced_shape true (shape x) flags)
               (map (fun v => v / guarded_divisor (dtype x) v)
                  (norm_data x m flags))).
  assert (Hsy : shape y = shape x) by now rewrite Hyeq.
  assert (Hdy : dtype y = dtype x) by now rewrite Hyeq.
  assert (Hs' : shape n' = reduced_shape true (shape y) flags)
    by now rewrite Hsy.
  assert (Hwn' : wf n').
  { unfold wf, size, n'. cbn [shape data].
    rewrite length_map, norm_data_length by exact Hwf.
    symmetry. apply prod_reduced_shape. }
  change (normalized y n')
    with (mk_ndarray (dtype y) (shape y) (data (normalized y n'))).
  rewrite (normalized_data y n' flags Hwy Hwn' Hs').
  rewrite zip_with_div_one.
  - now destruct y.
  - apply broadcast_data_Forall. unfold n'. cbn [data].
    apply Forall_forall. intros w Hw.
    apply in_map_iff in Hw as (v & <- & Hv).
    rewrite Hdy. apply guarded_quotient.
    pose proof (norm_data_nonneg x m flags) as Hnn.
    rewrite Forall_forall in Hnn. now apply Hnn.
  - rewrite (slice_norms_length _ y n' flags Hs' Hwn'). now rewrite Hwy.
Qed.

(** X9: the division of [normalize_and_return_norm] can be undone:
    each element of the normalized array times its divisor, which is
    never 0, is the element of [x]; where the norm [v] of the slice has
    [v * v > tiny], the element of [y] is that of [x] divided by [v],
    and times [v] it is the element of [x]. *)
Theorem normalized_times_norm (x y n : ndarray R) axis :
  wf x -> normalize_and_return_norm x axis true = Ok (y, n) ->
  forall i, (i < size x)%nat ->
    let v := nth i (slice_norms x n) 0 in
    guarded_divisor (dtype x) v <> 0 /\
    nth i (data y) 0 * guarded_divisor (dtype x) v = nth i (data x) 0 /\
    (tiny_R (dtype x) < v * v ->
     nth i (data y) 0 = nth i (data x) 0 / v /\
     nth i (data y) 0 * v = nth i (data x) 0).
Proof.
  intros Hwf. rewrite normalize_and_return_norm_eq. intros H.
  inv_bind H. inv_bind H. injection H as <- <-.
  rewrite Ha in Ha0. injection Ha0 as <-.
  destruct (norm_Ok_inv x axis true a Hwf Ha)
    as (m & flags & _ & _ & Hr & Hwa).
  assert (Hs : shape a = reduced_shape true (shape x) flags)
    by now rewrite Hr.
  intros i Hi v.
  pose proof (guarded_divisor_nonzero (dtype x) v) as Hg.
  assert (Hyi : nth i (data (normalized x a)) 0
                = nth i (data x) 0 / guarded_divisor (dtype x) v).
  { rewrite (normalized_data x a flags Hwf Hwa Hs).
    rewrite (zip_with_nth _ _ _ _ _ _ i 0 0 0); [reflexivity | |].
    - now rewrite Hwf.
    - now rewrite (slice_norms_length _ x a flags Hs Hwa). }
  split; [exact Hg |]. split.
  - rewrite Hyi. field. exact Hg.
  - intros Hv. rewrite Hyi.
    rewrite (guarded_divisor_far _ _ Hv) in *. split; [reflexivity |].
    field. exact Hg.
Qed.

(** X10: [norm] is absolutely homogeneous: for a non-empty [x] and a
    scalar [c], [norm(c * x, axis, keepdims)] is
    [|c| * norm(x, axis, keepdims)], and raises what [norm(x, ...)]
    raises. *)
Theorem norm_homogeneous (x : ndarray R) (c : R) axis kd :
  wf x -> size x <> 0%nat ->
  norm (scalar_multiply c x) axis kd
  = fmap (scalar_multiply (Rabs c)) (norm x axis kd).
Proof.
  intros Hwf Hsz.
  assert (Hwc : wf (scalar_multiply c x)).
  { unfold wf, size, scalar_multiply, map_array. cbn [data shape].
    now rewrite length_map. }
  rewrite !norm_eq.
  destruct (np_max_abs_nonempty x Hwf Hsz) as [m ->].
  destruct (np_max_abs_nonempty (scalar_multiply c x) Hwc Hsz) as [m' ->].
  change (ndim (scalar_multiply c x)) with (ndim x).
  unfold fmap. cbn [bind].
  destruct (reduction_axes axis (ndim x)) as [flags | e]; [| reflexivity].
  cbn [bind]. f_equal.
  rewrite !norm_data_R by assumption.
  unfold scalar_multiply, map_array. cbn [dtype data shape s_mul R_scalar].
  f_equal.
  rewrite map_map.
  rewrite (map_ext (fun v => c * v * (c * v))
             (fun v => (c * c) * (v * v))) by (intros v; ring).
  rewrite <- (map_map (fun v => v * v) (Rmult (c * c))).
  rewrite (sum_axes_map (Rmult (c * c))) by (cbn; intros; lra).
  rewrite !map_map. apply map_ext_in. intros u Hu.
  pose proof (sum_axes_squares_nonneg (shape x) flags (data x)) as Hnn.
  rewrite Forall_forall in Hnn. specialize (Hnn u Hu).
  rewrite sqrt_mult_alt by nra.
  f_equal. change (c * c) with (Rsqr c). apply sqrt_Rsqr_abs.
Qed.

(** X11: without an axis, [norm] is the Euclidean norm of all the
    elements taken as one vector: for a non-empty [x],
    [norm(x)] is the scalar [sqrt(x_1^2 + ... + x_N^2)], and with
    [keepdims=True] the same value in an array of the rank of [x]. *)
Theorem norm_is_euclidean (x : ndarray R) kd :
  wf x -> size x <> 0%nat ->
  norm x AxisNone kd
  = Ok (mk_ndarray (dtype x) (if kd then repeat 1%nat (ndim x) else [])
          [euclid (data x)]).
Proof.
  intros Hwf Hsz. rewrite norm_eq.
  destruct (np_max_abs_nonempty x Hwf Hsz) as [m ->].
  cbn [bind reduction_axes]. unfold ndim.
  rewrite norm_data_R by exact Hwf.
  rewrite sum_axes_all by (rewrite length_map; exact Hwf).
  f_equal. f_equal.
  destruct kd; [apply reduced_shape_all_keep | apply reduced_shape_all_drop].
Qed.

Lemma sum_squares_zero (l : list R) :
  sum_list (map (fun v => v * v) l) = 0 -> Forall (fun v => v = 0) l.
Proof.
  induction l as [| v l IH]; [constructor |].
  unfold sum_list. cbn [map fold_right]. intros H.
  pose proof (sum_squares_nonneg l) as Hl. unfold sum_list in Hl.
  constructor; [nra |]. apply IH. unfold sum_list. nra.
Qed.

(** X12: the norm vanishes only on the zero array: for a non-empty
    [x], [norm(x)] is 0 exactly when every element of [x] is 0. *)
Theorem norm_zero_iff_zero (x : ndarray R) :
  wf x -> size x <> 0%nat ->
  (norm x AxisNone false = Ok (mk_ndarray (dtype x) [] [0])
   <-> Forall (fun v => v = 0) (data x)).
Proof.
  intros Hwf Hsz. rewrite (norm_all_axes x Hwf Hsz). split.
  - intros [= H]. apply sum_squares_zero.
    apply sqrt_eq_0; [apply sum_squares_nonneg | exact H].
  - intros Hz. do 3 f_equal.
    replace (sum_list (map (fun v => v * v) (data x))) with 0;
      [apply sqrt_0 |].
    symmetry. unfold sum_list.
    induction Hz as [| v l Hv _ IH]; cbn [map fold_right]; [reflexivity |].
    rewrite IH, Hv. lra.
Qed.

(** X13: the rescaling of [norm] is safe: the scale
    [a = max(max|x|, tiny)] is positive, at least [tiny] and at least
    every [|x_i|], so no element of [b = x / a] has a square above 1,
    and [x / a] never divides by 0. *)
Theorem rescaling_is_bounded (x : ndarray R) m :
  np_max (np_abs x) = Ok m ->
  let a := norm_scale x m in
  0 < a /\ tiny_R (dtype x) <= a /\
  Forall (fun v => Rabs v <= a) (data x) /\
  Forall (fun b => Rabs b <= 1 /\ b * b <= 1) (data (divide_scalar x a)).
Proof.
  intros Hm a. pose proof (norm_scale_pos x m) as Ha. fold a in Ha.
  assert (Hm_le : m <= a) by apply Rmax_l.
  assert (Ht_le : tiny_R (dtype x) <= a) by apply Rmax_r.
  clearbody a.
  pose proof (np_max_abs_bound x m Hm) as Hb.
  assert (Hxa : Forall (fun v => Rabs v <= a) (data x)).
  { eapply Forall_impl; [| exact Hb]. intros v Hv. cbv beta in *. lra. }
  repeat split; auto.
  unfold divide_scalar, map_array. cbn [data s_div R_scalar].
  apply Forall_forall. intros b Hbin.
  apply in_map_iff in Hbin as (v & <- & Hv).
  rewrite Forall_forall in Hxa. specialize (Hxa v Hv).
  assert (Hab : Rabs (v / a) <= 1).
  { unfold Rdiv. rewrite Rabs_mult, (Rabs_pos_eq (/ a))
      by (left; now apply Rinv_0_lt_compat).
    apply (Rmult_le_reg_r a); [exact Ha |].
    rewrite Rmult_assoc, Rinv_l by lra. lra. }
  split; [exact Hab |].
  unfold Rabs in Hab. destruct (Rcase_abs (v / a)); nra.
Qed.

End RealProperties.

(** ** Every element is bounded by the norm of its slice *)

Lemma Forall2_firstn_skipn (A B : Type) (P : A -> B -> Prop) n l m :
  Forall2 P l m -> Forall2 P (firstn n l) (firstn n m) /\
                   Forall2 P (skipn n l) (skipn n m).
Proof.
  intros H. revert n. induction H as [| a b l m Hab Hlm IH]; intros n.
  - rewrite !firstn_nil, !skipn_nil. split; constructor.
  - destruct n as [| n]; cbn [firstn skipn].
    + split; [constructor | now constructor].
    + destruct (IH n) as [H1 H2]. split; [now constructor | exact H2].
Qed.

Lemma Forall2_chunks (A B : Type) (P : A -> B -> Prop) n k l m :
  Forall2 P l m -> Forall2 (Forall2 P) (chunks n k l) (chunks n k m).
Proof.
  revert l m; induction k as [| k IH]; intros l m H; cbn [chunks];
    constructor.
  - now apply Forall2_firstn_skipn.
  - now apply IH, Forall2_firstn_skipn.
Qed.

Lemma Forall2_concat (A B : Type) (P : A -> B -> Prop) ls ms :
  Forall2 (Forall2 P) ls ms -> Forall2 P (concat ls) (concat ms).
Proof.
  induction 1 as [| l m ls ms Hlm _ IH]; cbn [concat]; [constructor |].
  now apply Forall2_app.
Qed.

Lemma Forall2_map_same (A B C : Type) (P : B -> C -> Prop)
  (f : A -> B) (g : A -> C) (l : list A) :
  (forall a, In a l -> P (f a) (g a)) -> Forall2 P (map f l) (map g l).
Proof.
  induction l as [| a l IH]; intros H; cbn [map]; constructor.
  - apply H. now left.
  - apply IH. intros b Hb. apply H. now right.
Qed.

Lemma broadcast_data_Forall2 (A B : Type) (P : A -> B -> Prop) from to l m :
  Forall2 P l m ->
  Forall2 P (broadcast_data from to l) (broadcast_data from to m).
Proof.
  revert to l m; induction from as [| df rf IH]; intros [| dt rt] l m H;
    try exact H.
  rewrite !broadcast_data_cons.
  assert (Hparts : Forall2 (Forall2 P)
            (map (broadcast_data rf rt) (chunks (prod rf) df l))
            (map (broadcast_data rf rt) (chunks (prod rf) df m))).
  { pose proof (Forall2_chunks A B P (prod rf) df l m H) as Hc.
    induction Hc as [| c c' cs cs' Hcc _ IHc]; cbn [map]; constructor; auto. }
  destruct (df =? dt).
  - now apply Forall2_concat.
  - apply Forall2_concat.
    assert (Hhd : Forall2 P
              (hd [] (map (broadcast_data rf rt) (chunks (prod rf) df l)))
              (hd [] (map (broadcast_data rf rt) (chunks (prod rf) df m))))
      by (destruct Hparts; [constructor | assumption]).
    clear -Hhd. induction dt as [| dt IHd]; cbn [repeat]; constructor; auto.
Qed.

Lemma chunks_concat_uniform (A : Type) N (parts : list (list A)) :
  Forall (fun c => length c = N) parts ->
  chunks N (length parts) (concat parts) = parts.
Proof.
  induction 1 as [| c parts Hc _ IH]; [reflexivity |].
  cbn [length chunks concat].
  destruct (firstn_skipn_app_length A c (concat parts) N Hc) as [-> ->].
  now rewrite IH.
Qed.

Section RealDominance.

Local Open Scope R_scope.

Lemma Forall2_Rle_refl (l : list R) : Forall2 Rle l l.
Proof. induction l; constructor; auto; lra. Qed.

Lemma Forall2_Rle_trans (l m k : list R) :
  Forall2 Rle l m -> Forall2 Rle m k -> Forall2 Rle l k.
Proof.
  intros H. revert k. induction H as [| a b l m Hab _ IH]; intros k Hk;
    inversion Hk; subst; constructor; [lra | auto].
Qed.

Lemma zip_with_add_bounds (p acc : list R) :
  Forall (fun v => 0 <= v) p -> Forall (fun v => 0 <= v) acc ->
  length p = length acc ->
  Forall2 Rle p (zip_with Rplus p acc) /\
  Forall2 Rle acc (zip_with Rplus p acc) /\
  Forall (fun v => 0 <= v) (zip_with Rplus p acc).
Proof.
  intros Hp. revert acc. induction Hp as [| u p Hu _ IH];
    intros [| a acc] Hacc Hl; try discriminate.
  - repeat split; constructor.
  - inversion Hacc as [| ? ? Ha Hacc']; subst. injection Hl as Hl.
    destruct (IH acc Hacc' Hl) as (H1 & H2 & H3). cbn [zip_with].
    repeat split; constructor; auto; lra.
Qed.

(** Each of several blocks of non-negative numbers is below their
    element-wise sum. *)
Lemma part_le_fold (K : nat) (parts : list (list R)) :
  Forall (fun c => length c = K /\ Forall (fun v => 0 <= v) c) parts ->
  let total := fold_right (zip_with Rplus) (repeat 0 K) parts in
  length total = K /\ Forall (fun v => 0 <= v) total /\
  Forall (fun p => Forall2 Rle p total) parts.
Proof.
  induction 1 as [| c cs [Hc Hnn] _ IH]; cbn [fold_right].
  - repeat split; [apply repeat_length | | constructor].
    apply Forall_forall. intros v Hv. apply repeat_spec in Hv. lra.
  - cbv zeta in IH. destruct IH as (Hlen & Hnn' & Hle).
    set (total := fold_right (zip_with Rplus) (repeat 0 K) cs) in *.
    destruct (zip_with_add_bounds c total Hnn Hnn') as (H1 & H2 & H3);
      [congruence |].
    repeat split.
    + rewrite zip_with_length, Hc, Hlen. apply Nat.min_id.
    + exact H3.
    + constructor; [exact H1 |].
      eapply Forall_impl; [| exact Hle].
      intros p Hp. now apply (Forall2_Rle_trans p total).
Qed.

Lemma Forall2_repeat_r (cs : list (list R)) B :
  Forall (fun c => Forall2 Rle c B) cs ->
  Forall2 (Forall2 Rle) cs (repeat B (length cs)).
Proof.
  induction 1 as [| c cs Hc _ IH]; cbn [length repeat]; constructor; auto.
Qed.

(** Every non-negative element is at most the sum of its slice. *)
Lemma sum_axes_dominates s flags (l : list R) :
  Forall (fun v => 0 <= v) l -> length l = prod s ->
  Forall2 Rle l
    (broadcast_data (reduced_shape true s flags) s (sum_axes s flags l)).
Proof.
  revert flags l; induction s as [| d s IH]; intros flags l Hnn Hl.
  - destruct flags; apply Forall2_Rle_refl.
  - destruct flags as [| b fs].
    + cbn [reduced_shape sum_axes].
      rewrite broadcast_data_refl by exact Hl. apply Forall2_Rle_refl.
    + set (N := prod s).
      set (K := prod (reduced_shape true s fs)).
      assert (HK : prod (reduced_shape false s fs) = K)
        by (symmetry; apply prod_reduced_shape).
      change (prod (d :: s)) with (d * N)%nat in Hl.
      assert (Hch : Forall (fun c => length c = N /\
                                     Forall (fun v => 0 <= v) c)
                      (chunks N d l)).
      { apply Forall_forall. intros c Hc. split.
        - eapply chunks_In_length; eauto.
        - pose proof (chunks_Forall _ _ N d l Hnn) as H.
          rewrite Forall_forall in H. now apply H. }
      assert (Hparts : Forall (fun c => length c = K /\
                                        Forall (fun v => 0 <= v) c)
                         (map (sum_axes s fs) (chunks N d l))).
      { apply Forall_forall. intros p Hp.
        apply in_map_iff in Hp as (c & <- & Hc).
        rewrite Forall_forall in Hch. destruct (Hch c Hc) as [Hc1 Hc2].
        split.
        - rewrite sum_axes_length; [exact HK | exact Hc1].
        - apply sum_axes_Forall; cbn; auto; intros; lra. }
      rewrite <- (concat_chunks _ N d l Hl) at 1.
      destruct b; cbn [reduced_shape sum_axes s_add s_zero R_scalar];
        fold N; fold K; rewrite broadcast_data_cons; fold K.
      * rewrite HK.
        destruct (part_le_fold K _ Hparts) as (Hlen & _ & Hle).
        cbv zeta in Hlen, Hle.
        set (F := fold_right (zip_with Rplus) (repeat 0 K)
                    (map (sum_axes s fs) (chunks N d l))) in *.
        replace (chunks K 1 F) with [F]
          by (cbn [chunks]; now rewrite <- Hlen, firstn_all).
        cbn [map hd].
        set (B := broadcast_data (reduced_shape true s fs) s F).
        replace (if (1 =? d)%nat then concat [B] else concat (repeat B d))
          with (concat (repeat B d)).
        2:{ destruct (Nat.eqb_spec 1 d) as [<- | _]; reflexivity. }
        apply Forall2_concat.
        assert (Hall : Forall (fun c => Forall2 Rle c B) (chunks N d l)).
        { apply Forall_forall. intros c Hc.
          rewrite Forall_forall in Hch. destruct (Hch c Hc) as [Hc1 Hc2].
          apply (Forall2_Rle_trans _
                   (broadcast_data (reduced_shape true s fs) s
                      (sum_axes s fs c))).
          - now apply IH.
          - apply broadcast_data_Forall2.
            rewrite Forall_forall in Hle. apply Hle.
            now apply in_map. }
        assert (Hrep : repeat B d = repeat B (length (chunks N d l)))
          by now rewrite chunks_length.
        rewrite Hrep. now apply Forall2_repeat_r.
      * rewrite Nat.eqb_refl.
        assert (Huni : Forall (fun c => length c = K)
                         (map (sum_axes s fs) (chunks N d l)))
          by (eapply Forall_impl; [| exact Hparts]; cbn; tauto).
        pose proof (chunks_concat_uniform R K _ Huni) as Hcc.
        rewrite length_map, chunks_length in Hcc. rewrite Hcc.
        rewrite map_map. apply Forall2_concat.
        rewrite <- (map_id (chunks N d l)) at 1.
        apply Forall2_map_same. intros c Hc.
        rewrite Forall_forall in Hch. destruct (Hch c Hc) as [Hc1 Hc2].
        now apply IH.
Qed.

End RealDominance.

Section RealBounds.

Local Open Scope R_scope.

Lemma Forall2_nth_Rle (l m : list R) i :
  Forall2 Rle l m -> (i < length l)%nat -> nth i l 0 <= nth i m 0.
Proof.
  intros H. revert i. induction H as [| a b l m Hab _ IH]; intros [| i] Hi;
    cbn [length nth] in *; try lia; auto.
  apply IH. lia.
Qed.

(** No element exceeds, in magnitude, the norm of its slice. *)
Lemma abs_le_slice_norm (x n : ndarray R) axis i :
  wf x -> norm x axis true = Ok n -> (i < size x)%nat ->
  Rabs (nth i (data x) 0) <= nth i (slice_norms x n) 0.
Proof.
  intros Hwf Hn Hi.
  destruct (norm_Ok_inv x axis true n Hwf Hn)
    as (m & flags & _ & _ & Hr & Hwn).
  unfold slice_norms, broadcast_to. rewrite Hr. cbn [shape data].
  rewrite pad_shape_same by apply reduced_shape_keep_length.
  rewrite norm_data_R by exact Hwf.
  rewrite broadcast_data_map.
  set (T := broadcast_data (reduced_shape true (shape x) flags) (shape x)
              (sum_axes (shape x) flags (map (fun v => v * v) (data x)))).
  assert (Hdom : Forall2 Rle (map (fun v => v * v) (data x)) T).
  { apply sum_axes_dominates.
    - apply Forall_forall. intros v Hv.
      apply in_map_iff in Hv as (u & <- & _). nra.
    - rewrite length_map. exact Hwf. }
  assert (Hlen : length T = length (data x)).
  { apply Forall2_length in Hdom. now rewrite length_map in Hdom. }
  pose proof (Forall2_nth_Rle _ _ i Hdom) as Hi'.
  rewrite length_map, Hwf in Hi'. specialize (Hi' Hi).
  rewrite (nth_indep _ 0 (0 * 0)) in Hi' by (rewrite length_map, Hwf; exact Hi).
  rewrite (map_nth (fun v => v * v)) in Hi'.
  rewrite (nth_indep (map sqrt T) 0 (sqrt 0))
    by (rewrite length_map, Hlen, Hwf; exact Hi).
  rewrite (map_nth sqrt).
  rewrite <- sqrt_Rsqr_abs. unfold Rsqr.
  now apply sqrt_le_1_alt.
Qed.

(** X14: no element of [x] exceeds, in magnitude, the norm of the slice
    it lies in: for the norm [n] computed with [keepdims=True] and
    broadcast against [x], [|x_i| <= n_i] at every position. *)
Theorem element_bounded_by_slice_norm (x n : ndarray R) axis :
  wf x -> norm x axis true = Ok n ->
  forall i, (i < size x)%nat ->
    Rabs (nth i (data x) 0) <= nth i (slice_norms x n) 0.
Proof.
  intros Hwf Hn i Hi. now apply (abs_le_slice_norm x n axis).
Qed.

(** X15: every element of the array [normalize] returns lies in
    [[-1, 1]], whatever the axis and whether or not its slice was
    divided by its norm. *)
Theorem normalized_in_unit_interval (x y : ndarray R) axis :
  wf x -> normalize x axis = Ok y ->
  Forall (fun v => Rabs v <= 1) (data y).
Proof.
  intros Hwf Hy.
  destruct (norm_of_normalized x y axis true Hwf Hy)
    as (m & flags & Hfl & _ & Hny).
  destruct (normalize_Ok_inv x y axis Hwf Hy)
    as (m0 & flags0 & _ & Hfl0 & _ & _ & Hwn & Hyeq).
  rewrite Hfl in Hfl0. injection Hfl0 as <-.
  assert (Hwy : wf y) by (rewrite Hyeq; now apply (wf_normalized x _ flags)).
  set (n' := mk_ndarray (dtype x) (reduced_shape true (shape x) flags)
               (map (fun v => v / guarded_divisor (dtype x) v)
                  (norm_data x m flags))) in *.
  assert (Hle1 : Forall (fun w => w <= 1) (slice_norms y n')).
  { apply broadcast_data_Forall. unfold n'. cbn [data].
    apply Forall_forall. intros w Hw.
    apply in_map_iff in Hw as (v & <- & Hv).
    assert (Hv0 : 0 <= v).
    { pose proof (norm_data_nonneg x m flags) as Hnn.
      rewrite Forall_forall in Hnn. now apply Hnn. }
    pose proof (tiny_R_lt_1 (dtype x)) as Ht.
    destruct (guarded_quotient (dtype x) v Hv0) as (H1 & H2 & _).
    destruct (Rlt_le_dec (tiny_R (dtype x)) (v * v)) as [Hc | Hc].
    - rewrite (H1 Hc). lra.
    - rewrite (H2 Hc). nra. }
  apply Forall_forall. intros u Hu.
  apply (In_nth _ _ 0) in Hu as (i & Hi & <-).
  assert (Hi' : (i < size y)%nat) by now rewrite <- Hwy.
  pose proof (abs_le_slice_norm y n' axis i Hwy Hny Hi') as Hb.
  rewrite Forall_forall in Hle1.
  assert (Hin : In (nth i (slice_norms y n') 0) (slice_norms y n')).
  { apply nth_In.
    assert (Hs' : shape n' = reduced_shape true (shape y) flags)
      by now rewrite Hyeq.
    assert (Hwn' : wf n').
    { unfold wf, size, n'. cbn [shape data].
      rewrite length_map, norm_data_length by exact Hwf.
      symmetry. apply prod_reduced_shape. }
    now rewrite (slice_norms_length _ y n' flags Hs' Hwn'). }
  specialize (Hle1 _ Hin). lra.
Qed.

(** X16: along the last axis the slices are the rows: for an array of
    shape [s + (c,)] given by its rows, [norm(x, axis=-1)] holds the
    Euclidean norm of each row, and [normalize(x, axis=-1)] holds each
    row divided by its norm, or the row itself when the square of its
    norm is at most [tiny]. *)
Theorem last_axis_acts_on_rows t s c (rows : list (list R)) :
  length rows = prod s -> Forall (fun r => length r = c) rows ->
  concat rows <> [] ->
  norm (mk_ndarray t (s ++ [c]) (concat rows)) (AxisInt (-1)) false
  = Ok (mk_ndarray t s (map euclid rows)) /\
  normalize (mk_ndarray t (s ++ [c]) (concat rows)) (AxisInt (-1))
  = Ok (mk_ndarray t (s ++ [c]) (concat (map (normalize_row t) rows))) /\
  Forall (fun row =>
            (euclid row * euclid row <= tiny_R t ->
             normalize_row t row = row) /\
            (tiny_R t < euclid row * euclid row ->
             normalize_row t row = map (fun v => v / euclid row) row))
    rows.
Proof.
  intros Hl Hrows Hne.
  destruct (norm_and_normalize_rows t s c rows Hl Hrows Hne) as [H1 H2].
  split; [exact H1 |]. split; [exact H2 |].
  apply Forall_forall. intros row _. split.
  - apply normalize_row_near_zero.
  - apply normalize_row_far.
Qed.

End RealBounds.

(** ** Concrete runs of the further properties *)

(** [normalize_and_return_norm([3.0, 4.0], keepdims=True)]. *)
Lemma normalize_and_return_norm_vec_3_4_keepdims :
  normalize_and_return_norm vec_3_4 AxisNone true
  = Ok (mk_ndarray float64 [2] [(3 / 5)%R; (4 / 5)%R],
        mk_ndarray float64 [1] [5%R]).
Proof.
  pose proof (proj2 normalize_and_return_norm_vec_3_4) as Hy.
  unfold normalize in Hy.
  rewrite normalize_and_return_norm_eq in Hy.
  rewrite !norm_vec_3_4 in Hy. cbn [bind fst fmap] in Hy.
  apply (f_equal (fun r => match r with Ok a => a | Raise _ => vec_3_4 end))
    in Hy.
  rewrite normalize_and_return_norm_eq, !norm_vec_3_4. cbn [bind].
  now rewrite Hy.
Qed.

Lemma tiny_float64_lt_25 : (tiny_R float64 < 5 * 5)%R.
Proof. pose proof (tiny_R_lt_1 float64). lra. Qed.

(** X1 at [np.zeros((0, 3))] with the axis 7, which is out of range. *)
Lemma empty_input_raises_witness :
  norm empty_0x3 (AxisInt 7) false = Raise ZeroSizeReduction /\
  normalize_and_return_norm empty_0x3 (AxisInt 7) false
  = Raise ZeroSizeReduction /\
  normalize empty_0x3 (AxisInt 7) = Raise ZeroSizeReduction.
Proof.
  apply (empty_input_raises empty_0x3 (AxisInt 7) false); reflexivity.
Defined.

(** X2 at [x = [[3.0, 4.0], [0.0, 0.0]]]: the axis -1 is the axis 1. *)
Lemma negative_axis_counts_from_last_witness :
  norm mat_3_4_0_0 (AxisInt (-1)) false = norm mat_3_4_0_0 (AxisInt 1) false /\
  normalize_and_return_norm mat_3_4_0_0 (AxisInt (-1)) false
  = normalize_and_return_norm mat_3_4_0_0 (AxisInt 1) false /\
  normalize mat_3_4_0_0 (AxisInt (-1)) = normalize mat_3_4_0_0 (AxisInt 1).
Proof.
  apply (negative_axis_counts_from_last mat_3_4_0_0 1 false).
  cbn. lia.
Defined.

(** X3 at [x = [[3.0, 4.0], [0.0, 0.0]]]: the axes (0, 1) against
    [None], and the axes (-1,) against -1. *)
Lemma axis_spellings_agree_witness :
  (norm mat_3_4_0_0 (AxisTuple [0%Z; 1%Z]) false
   = norm mat_3_4_0_0 AxisNone false /\
   normalize_and_return_norm mat_3_4_0_0 (AxisTuple [0%Z; 1%Z]) false
   = normalize_and_return_norm mat_3_4_0_0 AxisNone false /\
   normalize mat_3_4_0_0 (AxisTuple [0%Z; 1%Z])
   = normalize mat_3_4_0_0 AxisNone) /\
  (norm mat_3_4_0_0 (AxisTuple [(-1)%Z]) false
   = norm mat_3_4_0_0 (AxisInt (-1)) false /\
   normalize_and_return_norm mat_3_4_0_0 (AxisTuple [(-1)%Z]) false
   = normalize_and_return_norm mat_3_4_0_0 (AxisInt (-1)) false /\
   normalize mat_3_4_0_0 (AxisTuple [(-1)%Z])
   = normalize mat_3_4_0_0 (AxisInt (-1))).
Proof.
  destruct (axis_spellings_agree mat_3_4_0_0 false (size_nonzero 1))
    as [H1 H2].
  split; [exact H1 | exact (H2 (-1)%Z eq_refl)].
Defined.



(** X6 at [x = [3.0, 4.0]], whose norm with [keepdims=True] is [[5.0]]. *)
Lemma keepdims_norm_broadcasts_witness :
  ndim (mk_ndarray float64 [1] [5%R]) = ndim vec_3_4 /\
  (exists q, np_divide vec_3_4 (mk_ndarray float64 [1] [5%R]) = Ok q /\
     shape q = shape vec_3_4) /\
  (exists q, np_multiply vec_3_4 (mk_ndarray float64 [1] [5%R]) = Ok q /\
     shape q = shape vec_3_4).
Proof.
  exact (keepdims_norm_broadcasts vec_3_4 (mk_ndarray float64 [1] [5%R])
           AxisNone (norm_vec_3_4 true)).
Defined.

(** X7 at [x = [3.0, 4.0]]: the norm of [normalize(x)] is 1. *)
Lemma normalized_has_unit_norm_witness :
  exists n',
    norm (mk_ndarray float64 [2] [(3 / 5)%R; (4 / 5)%R]) AxisNone false
    = Ok n' /\
    shape n' = [] /\ nth 0 (data n') 0%R = 1%R.
Proof.
  destruct (normalized_has_unit_norm vec_3_4
              (mk_ndarray float64 [2] [(3 / 5)%R; (4 / 5)%R])
              (mk_ndarray float64 [] [5%R]) AxisNone false
              eq_refl (norm_vec_3_4 false)
              (proj2 normalize_and_return_norm_vec_3_4))
    as (n' & Hn' & Hs & _ & Hj).
  exists n'. split; [exact Hn' |]. split; [exact Hs |].
  apply (proj1 (Hj 0%nat (Nat.lt_0_succ 0))). exact tiny_float64_lt_25.
Defined.

(** X8 at [x = [3.0, 4.0]]: [normalize([0.6, 0.8])] is [[0.6, 0.8]]. *)
Lemma normalize_idempotent_witness :
  normalize (mk_ndarray float64 [2] [(3 / 5)%R; (4 / 5)%R]) AxisNone
  = Ok (mk_ndarray float64 [2] [(3 / 5)%R; (4 / 5)%R]).
Proof.
  exact (normalize_idempotent vec_3_4 _ AxisNone eq_refl
           (proj2 normalize_and_return_norm_vec_3_4)).
Defined.

(** X9 at [x = [3.0, 4.0]]: [0.6 * 5] is [3]. *)
Lemma normalized_times_norm_witness :
  (nth 0 [(3 / 5)%R; (4 / 5)%R] 0 * 5 = 3)%R.
Proof.
  exact (proj2 (proj2 (proj2 (normalized_times_norm vec_3_4 _ _ AxisNone
                                eq_refl
                                normalize_and_return_norm_vec_3_4_keepdims
                                0%nat (Nat.lt_0_succ 1)))
                  tiny_float64_lt_25)).
Defined.

(** X10 at [x = [3.0, 4.0]] and [c = -2]: the norm of [[-6, -8]] is
    [|-2| * 5]. *)
Lemma norm_homogeneous_witness :
  norm (scalar_multiply (-2)%R vec_3_4) AxisNone false
  = Ok (mk_ndarray float64 [] [(Rabs (-2) * 5)%R]).
Proof.
  rewrite (norm_homogeneous vec_3_4 (-2)%R AxisNone false eq_refl
             (size_nonzero 1)).
  rewrite (norm_vec_3_4 false). reflexivity.
Defined.

(** X11 at [x = [[3.0, 4.0], [0.0, 0.0]]]. *)
Lemma norm_is_euclidean_witness :
  norm mat_3_4_0_0 AxisNone true
  = Ok (mk_ndarray float64 [1; 1] [euclid [3%R; 4%R; 0%R; 0%R]]).
Proof.
  exact (norm_is_euclidean mat_3_4_0_0 true eq_refl (size_nonzero 3)).
Defined.

(** X12 at [np.zeros((2, 2))]. *)
Lemma norm_zero_iff_zero_witness :
  norm zeros_2x2 AxisNone false = Ok (mk_ndarray float64 [] [0%R]).
Proof.
  apply (proj2 (norm_zero_iff_zero zeros_2x2 eq_refl (size_nonzero 3))).
  repeat constructor.
Defined.

(** X13 at [x = [3.0, 4.0]]. *)
Lemma rescaling_is_bounded_witness :
  (0 < norm_scale vec_3_4 (Rmax (Rabs 3) (Rabs 4)))%R /\
  Forall (fun b => (Rabs b <= 1 /\ b * b <= 1)%R)
    (data (divide_scalar vec_3_4
             (norm_scale vec_3_4 (Rmax (Rabs 3) (Rabs 4))))).
Proof.
  destruct (rescaling_is_bounded vec_3_4 (Rmax (Rabs 3) (Rabs 4)) eq_refl)
    as (H1 & _ & _ & H4).
  split; [exact H1 | exact H4].
Defined.

(** X14 at [x = [3.0, 4.0]]: [|3| <= 5]. *)
Lemma element_bounded_by_slice_norm_witness :
  (Rabs (nth 0 (data vec_3_4) 0) <= 5)%R.
Proof.
  exact (element_bounded_by_slice_norm vec_3_4 (mk_ndarray float64 [1] [5%R])
           AxisNone eq_refl (norm_vec_3_4 true) 0%nat (Nat.lt_0_succ 1)).
Defined.

(** X15 at [x = [3.0, 4.0]]. *)
Lemma normalized_in_unit_interval_witness :
  Forall (fun v => (Rabs v <= 1)%R) [(3 / 5)%R; (4 / 5)%R].
Proof.
  exact (normalized_in_unit_interval vec_3_4 _ AxisNone eq_refl
           (proj2 normalize_and_return_norm_vec_3_4)).
Defined.

(** X16 at the rows [[3.0, 4.0]] and [[0.0, 0.0]]. *)
Lemma last_axis_acts_on_rows_witness :
  norm mat_3_4_0_0 (AxisInt (-1)) false
  = Ok (mk_ndarray float64 [2] [euclid [3%R; 4%R]; euclid [0%R; 0%R]]) /\
  normalize mat_3_4_0_0 (AxisInt (-1))
  = Ok (mk_ndarray float64 [2; 2]
          (normalize_row float64 [3%R; 4%R]
           ++ normalize_row float64 [0%R; 0%R] ++ [])).
Proof.
  destruct (last_axis_acts_on_rows float64 [2] 2
              [[3%R; 4%R]; [0%R; 0%R]] eq_refl)
    as (H1 & H2 & _).
  - repeat constructor.
  - discriminate.
  - split; [exact H1 | exact H2].
Defined.
